(** * Multi-key Gemini client: credential pool, rotation, retry and backoff

    A shallow embedding of the credential/retry/rotation core of the
    Gemini service module ([KeyManager], [isRotationTrigger],
    [executeWithKeyRotation], [withRateLimitHandling], [callModel]).

    Conventions of the embedding:
    - the [async] functions run one at a time, so they are written in a
      state-and-exception monad [M] over a [World];
    - [Math.random()] is read off an oracle [rand : nat -> Q] through a cursor
      kept in the world; a draw is an (idealised) rational, and the
      arithmetic on waits is exact rational arithmetic;
    - the backend is an oracle [backend] that answers the n-th network call;
    - [delay], client construction, network calls and rotations are recorded
      in a chronological event log, so that "how many attempts", "which
      waits" and "was there a rotation" are statements about the log;
    - the configuration storage ([localStorage], [process.env]) does not
      change while one logical call runs;
    - a string is the UTF-8 encoding of the JavaScript string; [trim]
      knows the white space of ECMAScript by its encodings; [toLowerCase]
      folds the ASCII letters. *)

From Stdlib Require Import String Ascii List Bool Arith ZArith QArith Qround Lia.
Import ListNotations.

Local Open Scope string_scope.
Local Open Scope list_scope.

(** ** JavaScript strings *)

Module JsString.

Definition lowerAscii (c : ascii) : ascii :=
  let n := nat_of_ascii c in
  if (65 <=? n)%nat && (n <=? 90)%nat then ascii_of_nat (n + 32) else c.

(** [s.toLowerCase()] *)
Fixpoint toLowerCase (s : string) : string :=
  match s with
  | EmptyString => EmptyString
  | String c s' => String (lowerAscii c) (toLowerCase s')
  end.

(** [s.startsWith(p)] *)
Fixpoint startsWith (p s : string) : bool :=
  match p with
  | EmptyString => true
  | String a p' =>
      match s with
      | EmptyString => false
      | String b s' => Ascii.eqb a b && startsWith p' s'
      end
  end.

(** [s.includes(p)]: [p] starts at some position of [s]. *)
Fixpoint includes (p s : string) : bool :=
  startsWith p s ||
  match s with
  | EmptyString => false
  | String _ s' => includes p s'
  end.

(** The white space that [trim] strips is the WhiteSpace and
    LineTerminator of ECMAScript: U+0009..U+000D, U+0020, U+00A0, U+1680,
    U+2000..U+200A, U+2028, U+2029, U+202F, U+205F, U+3000 and U+FEFF.
    In UTF-8 these are code points of one, two or three bytes. *)
Definition isWhiteSpace (c : ascii) : bool :=
  let n := nat_of_ascii c in
  (n =? 32)%nat || ((9 <=? n)%nat && (n <=? 13)%nat).

(** U+00A0 is C2 A0. *)
Definition isWhiteSpace2 (a b : ascii) : bool :=
  (nat_of_ascii a =? 194)%nat && (nat_of_ascii b =? 160)%nat.

(** U+1680 is E1 9A 80; U+2000..U+200A, U+2028, U+2029 and U+202F are
    E2 80 80..8A, E2 80 A8, E2 80 A9 and E2 80 AF; U+205F is E2 81 9F;
    U+3000 is E3 80 80; U+FEFF is EF BB BF. *)
Definition isWhiteSpace3 (a b c : ascii) : bool :=
  let x := nat_of_ascii a in
  let y := nat_of_ascii b in
  let z := nat_of_ascii c in
  ((x =? 225) && (y =? 154) && (z =? 128))%nat
  || ((x =? 226) && (y =? 128)
      && (((128 <=? z) && (z <=? 138)) || (z =? 168) || (z =? 169)
          || (z =? 175)))%nat
  || ((x =? 226) && (y =? 129) && (z =? 159))%nat
  || ((x =? 227) && (y =? 128) && (z =? 128))%nat
  || ((x =? 239) && (y =? 187) && (z =? 191))%nat.

(** [s.trim() === '']: [s] is white space from end to end. *)
Fixpoint trimIsEmpty (s : string) : bool :=
  match s with
  | EmptyString => true
  | String a s1 =>
      if isWhiteSpace a then trimIsEmpty s1
      else
        match s1 with
        | EmptyString => false
        | String b s2 =>
            if isWhiteSpace2 a b then trimIsEmpty s2
            else
              match s2 with
              | EmptyString => false
              | String c s3 =>
                  if isWhiteSpace3 a b c then trimIsEmpty s3 else false
              end
        end
  end.

(** [s.trim() !== ''] *)
Definition trimNonEmpty (s : string) : bool := negb (trimIsEmpty s).

(** truthiness of a string value that may be [null]/[undefined] *)
Definition truthy (o : option string) : bool :=
  match o with
  | Some (String _ _) => true
  | _ => false
  end.

End JsString.
Import JsString.

(** ** Thrown values, events and the world *)

(** A thrown value is an [Error] object with its [message], or some other
    value, known by its [String(...)] rendering. *)
Inductive JsError : Type :=
| ErrorObj (message : string)
| Thrown (rendering : string).

(** [error instanceof Error ? error.message.toLowerCase() : ''] *)
Definition errorMessageLower (error : JsError) : string :=
  match error with
  | ErrorObj m => toLowerCase m
  | Thrown _ => ""
  end.

(** [error instanceof Error ? error.message.toLowerCase()
                            : String(error).toLowerCase()] *)
Definition errorTextLower (error : JsError) : string :=
  match error with
  | ErrorObj m => toLowerCase m
  | Thrown s => toLowerCase s
  end.

(** The request handed to [models.generateContent]. *)
Record Request : Type := mkRequest {
  req_model : string;
  req_contents : string;
  req_systemInstruction : string;
  req_responseMimeType : option string;
  req_responseSchema : option string;
  req_googleSearchTool : bool
}.

(** A client bound to one credential; [None] is [undefined], which is what
    [keys[currentIndex]] gives out of range. *)
Record Client : Type := mkClient { apiKey : option string }.

Inductive Event : Type :=
| EClient (key : option string)             (* new GoogleGenAI({ apiKey }) *)
| ECall (key : option string) (model : string)  (* generateContent *)
| EDelay (ms : Q)                           (* await delay(ms) *)
| ERotate.                                  (* KeyManager.rotate() advanced *)

(** The [KeyManager] singleton. *)
Record KeyManagerState : Type := mkKM {
  keys : list string;
  currentIndex : nat;
  initialized : bool
}.

Definition KeyManager_initial : KeyManagerState :=
  {| keys := []; currentIndex := 0; initialized := false |}.

Record World : Type := mkWorld {
  km : KeyManagerState;
  rng : nat;              (* number of Math.random() draws so far *)
  calls : nat;            (* number of network calls so far *)
  trace : list Event      (* chronological log *)
}.

Definition log (e : Event) (w : World) : World :=
  {| km := km w; rng := rng w; calls := calls w; trace := trace w ++ [e] |}.

Definition with_km (k : KeyManagerState) (w : World) : World :=
  {| km := k; rng := rng w; calls := calls w; trace := trace w |}.

(** ** The monad of the async code *)

Inductive Outcome (A : Type) : Type :=
| Return (a : A)
| Throw (e : JsError).
Arguments Return {A} a.
Arguments Throw {A} e.

Definition M (A : Type) : Type := World -> Outcome A * World.

Definition ret {A} (a : A) : M A := fun w => (Return a, w).
Definition throw {A} (e : JsError) : M A := fun w => (Throw e, w).
Definition bind {A B} (m : M A) (f : A -> M B) : M B :=
  fun w => match m w with
           | (Return a, w') => f a w'
           | (Throw e, w') => (Throw e, w')
           end.
Definition try_catch {A} (m : M A) (handler : JsError -> M A) : M A :=
  fun w => match m w with
           | (Return a, w') => (Return a, w')
           | (Throw e, w') => handler e w'
           end.
Definition getKM : M KeyManagerState := fun w => (Return (km w), w).
Definition putKM (k : KeyManagerState) : M unit :=
  fun w => (Return tt, with_km k w).
Definition emit (e : Event) : M unit := fun w => (Return tt, log e w).

Declare Scope js_scope.
Delimit Scope js_scope with js.
Notation "x <- m ;; k" := (bind m (fun x => k))
  (at level 61, m at next level, right associativity) : js_scope.
Notation "m ;;; k" := (bind m (fun _ => k))
  (at level 61, right associativity) : js_scope.
Notation "'try' m 'catch' h" := (try_catch m h)
  (at level 62, m at level 61, h at level 61) : js_scope.

(** [await delay(ms)] *)
Definition delay (ms : Q) : M unit := emit (EDelay ms).

(** ** Configuration storage *)

(** What [JSON.parse] makes of the stored item ['gemini_api_keys']. An array
    element that is not a string has no [trim] method, so filtering it
    raises a [TypeError] inside the [try] block. *)
Inductive JsonElem : Type :=
| JStr (s : string)
| JNonString.

Inductive StoredKeys : Type :=
| KeysUnparsable                      (* JSON.parse throws *)
| KeysNotArray                        (* Array.isArray(parsed) is false *)
| KeysArray (elems : list JsonElem).

(** [None] stands for [null]/[undefined]; for ['gemini_api_keys'] also for
    the empty string, which is falsy just the same. *)
Record Storage : Type := mkStorage {
  gemini_api_keys : option StoredKeys;  (* localStorage 'gemini_api_keys' *)
  gemini_api_key : option string;       (* localStorage 'gemini_api_key' *)
  env_API_KEY : option string           (* process.env.API_KEY *)
}.

(** [parsed.filter(k => k.trim() !== '')]; [None] when the callback throws. *)
Fixpoint filterKeys (elems : list JsonElem) : option (list string) :=
  match elems with
  | [] => Some []
  | JNonString :: _ => None
  | JStr s :: rest =>
      match filterKeys rest with
      | None => None
      | Some l => Some (if trimNonEmpty s then s :: l else l)
      end
  end.

Definition parsedKeys (sk : StoredKeys) : list string :=
  match sk with
  | KeysUnparsable => []
  | KeysNotArray => []
  | KeysArray elems =>
      match filterKeys elems with
      | Some l => l
      | None => []
      end
  end.

Definition keyList (o : option string) : list string :=
  match o with
  | Some k => [k]
  | None => []
  end.

(** The value of [newKeys] when [loadKeys] assigns it to [this.keys]. *)
Definition configuredKeys (st : Storage) : list string :=
  let storedKeys := gemini_api_keys st in
  let legacyKey :=
    if truthy (gemini_api_key st) then gemini_api_key st else env_API_KEY st in
  let newKeys :=
    match storedKeys with
    | Some sk => parsedKeys sk
    | None => []
    end in
  let newKeys :=
    if (length newKeys =? 0)%nat && truthy legacyKey
    then keyList legacyKey else newKeys in
  let newKeys :=
    if (length newKeys =? 0)%nat && truthy (env_API_KEY st)
    then keyList (env_API_KEY st) else newKeys in
  newKeys.

(** ** Failure classification *)

Definition isRotationTrigger (error : JsError) : bool :=
  let errorMessage := errorTextLower error in
  includes "429" errorMessage ||
  includes "quota" errorMessage ||
  includes "limit" errorMessage ||
  includes "exhausted" errorMessage ||
  includes "403" errorMessage ||
  includes "permission denied" errorMessage ||
  includes "suspended" errorMessage ||
  includes "consumer" errorMessage.

(** The first test of the [catch] block of [withRateLimitHandling]. *)
Definition isHardQuotaZero (error : JsError) : bool :=
  let errorMessage := errorMessageLower error in
  includes "limit: 0" errorMessage ||
  includes "quota exceeded for metric" errorMessage.

(** The test [isQuotaExhausted] of the [catch] block of [callModel]. *)
Definition isQuotaExhausted (error : JsError) : bool :=
  let errStr := errorTextLower error in
  includes "exhausted" errStr || includes "quota" errStr ||
  includes "limit" errStr || includes "429" errStr.

Definition MAX_RETRIES : nat := 5.

(** [Math.floor] of a non-negative number, as an array index. *)
Definition Math_floor (q : Q) : nat := Z.to_nat (Qfloor q).

(** [Math.pow(2, attempt)] *)
Definition Math_pow2 (attempt : nat) : Q := inject_Z (2 ^ Z.of_nat attempt).

(** The wait computed before [await delay(backoffTime)], for the draw [r]. *)
Definition backoffTime (shouldRotate : bool) (attempt : nat) (r : Q) : Q :=
  if shouldRotate then 8000 + r * 4000
  else Math_pow2 attempt * 1000 + r * 500.

(** [maxAttempts] of [executeWithKeyRotation]. *)
Definition maxAttemptsOf (k : KeyManagerState) : nat :=
  if (0 <? length (keys k))%nat then length (keys k) else 1%nat.

Definition noKeyError : JsError :=
  ErrorObj "Gemini API key not found. Please add keys in the settings modal (gear icon).".

Definition fallbackModel : string := "gemini-2.0-flash".

(** Optional settings of [callModel]. *)
Record CallConfig : Type := mkConfig {
  jsonOutput : bool;
  responseSchema : option string;
  googleSearch : bool
}.

Definition buildRequest (model systemInstruction userPrompt : string)
    (config : CallConfig) : Request :=
  {| req_model := model;
     req_contents := userPrompt;
     req_systemInstruction := systemInstruction;
     req_responseMimeType :=
       if jsonOutput config then Some "application/json" else None;
     req_responseSchema := responseSchema config;
     req_googleSearchTool := googleSearch config |}.

(** ** Saving the keys

    The part of [handleSaveApiKeys] (settings modal of the application)
    that writes the items this module reads. The list is stored as
    [JSON.stringify(keys.gemini)], which [JSON.parse] reads back as the
    same array of strings; the first key, if there is one, is also stored
    as the legacy item, which is removed otherwise. ([process.env] is not
    written; the items of the other services are not read here.) *)
Definition handleSaveApiKeys (gemini : list string) (st : Storage)
    : Storage :=
  {| gemini_api_keys := Some (KeysArray (map JStr gemini));
     gemini_api_key :=
       match gemini with
       | k :: _ => Some k
       | [] => None
       end;
     env_API_KEY := env_API_KEY st |}.


(** ** Sample configurations and backends

    Concrete inputs on which the theorems below are instantiated. *)

Module Sample.

(** Every draw of [Math.random()] is 1/2. *)
Definition half : nat -> Q := fun _ => 1 # 2.

Definition noKeys : Storage :=
  {| gemini_api_keys := None; gemini_api_key := None;
     env_API_KEY := None |}.

Definition oneKey : Storage :=
  {| gemini_api_keys := None; gemini_api_key := Some "KEY-A";
     env_API_KEY := None |}.

Definition twoKeys : Storage :=
  {| gemini_api_keys := Some (KeysArray [JStr "KEY-A"; JStr "KEY-B"]);
     gemini_api_key := Some "KEY-A"; env_API_KEY := None |}.

Definition threeKeys : Storage :=
  {| gemini_api_keys :=
       Some (KeysArray [JStr "KEY-A"; JStr "KEY-B"; JStr "KEY-C"]);
     gemini_api_key := Some "KEY-A"; env_API_KEY := None |}.

(** The world of a page that has just been loaded. *)
Definition start : World :=
  {| km := KeyManager_initial; rng := 0; calls := 0; trace := [] |}.

Definition plain : CallConfig :=
  {| jsonOutput := false; responseSchema := None; googleSearch := false |}.

Definition request (model : string) : Request :=
  buildRequest model "You are a researcher." "Write a title." plain.

(** A backend that rejects every call with the same [Error]. *)
Definition alwaysFails (message : string)
    : option string -> Request -> nat -> string + JsError :=
  fun _ _ _ => inr (ErrorObj message).

(** A backend that rejects the flash model with a rate-limit error and
    serves every other model. *)
Definition flashDown : option string -> Request -> nat -> string + JsError :=
  fun _ request _ =>
    if String.eqb (req_model request) "gemini-2.5-flash"
    then inr (ErrorObj "429 RESOURCE_EXHAUSTED")
    else inl "A Title".

Definition rateLimited : string := "429 Too Many Requests".
Definition zeroQuota : string :=
  "Quota exceeded for metric: generate_requests, limit: 0".
Definition networkDown : string := "Failed to fetch".


(** A backend that serves every call. *)
Definition alwaysOk : option string -> Request -> nat -> string + JsError :=
  fun _ _ _ => inl "A Title".

(** A backend that serves the calls made with [good] and rejects the
    others with a rate-limit error. *)
Definition onlyKey (good : string)
    : option string -> Request -> nat -> string + JsError :=
  fun key _ _ =>
    match key with
    | Some k => if String.eqb k good then inl "A Title"
                else inr (ErrorObj "429 Too Many Requests")
    | None => inr (ErrorObj "API key not valid")
    end.

(** A backend whose first [j] calls fail with [message]. *)
Definition failsFirst (j : nat) (message : string)
    : option string -> Request -> nat -> string + JsError :=
  fun _ _ n => if (n <? j)%nat then inr (ErrorObj message) else inl "A Title".


(** Strings of white space beyond ASCII: U+00A0 (no-break space), and
    U+FEFF U+2028 U+3000 followed by a tab. *)
Definition nbsp : string :=
  String (ascii_of_nat 194) (String (ascii_of_nat 160) EmptyString).

Definition wideBlank : string :=
  String (ascii_of_nat 239) (String (ascii_of_nat 187)
  (String (ascii_of_nat 191)
  (String (ascii_of_nat 226) (String (ascii_of_nat 128)
  (String (ascii_of_nat 168)
  (String (ascii_of_nat 227) (String (ascii_of_nat 128)
  (String (ascii_of_nat 128)
  (String (ascii_of_nat 9) EmptyString))))))))).

(** A stored list that holds only a no-break space, beside a legacy key. *)
Definition blankListWithLegacy : Storage :=
  {| gemini_api_keys := Some (KeysArray [JStr nbsp]);
     gemini_api_key := Some "LEG"; env_API_KEY := None |}.

End Sample.

(** ** The code *)

Section GeminiService.

Local Open Scope js_scope.

(** Result type of the underlying operation. *)
Variable T : Type.
(** [rand n] is the value of the n-th call of [Math.random()]. *)
Variable rand : nat -> Q.
(** [backend key request n]: how the service answers the n-th network
    call, made with credential [key]. *)
Variable backend : option string -> Request -> nat -> T + JsError.

Definition Math_random : M Q :=
  fun w => (Return (rand (rng w)),
            {| km := km w; rng := S (rng w); calls := calls w;
               trace := trace w |}).

(** [KeyManager.loadKeys()] under the storage [st]. *)
Definition loadKeys (st : Storage) : M unit :=
  k <- getKM ;;
  let newKeys := configuredKeys st in
  putKM {| keys := newKeys; currentIndex := currentIndex k;
           initialized := initialized k |} ;;;
  if negb (initialized k) && (0 <? length newKeys)%nat then
    r <- Math_random ;;
    putKM {| keys := newKeys;
             currentIndex :=
               Math_floor (r * inject_Z (Z.of_nat (length newKeys)));
             initialized := true |}
  else if (0 <? length newKeys)%nat then
    if (length newKeys <=? currentIndex k)%nat then
      putKM {| keys := newKeys; currentIndex := 0;
               initialized := initialized k |}
    else ret tt
  else ret tt.

(** [KeyManager.getCurrentKey()] *)
Definition getCurrentKey (st : Storage) : M (option string) :=
  loadKeys st ;;;
  k <- getKM ;;
  if (length (keys k) =? 0)%nat then throw noKeyError
  else ret (nth_error (keys k) (currentIndex k)).

(** [KeyManager.rotate()] *)
Definition rotate : M bool :=
  k <- getKM ;;
  if (length (keys k) <=? 1)%nat then ret false
  else
    putKM {| keys := keys k;
             currentIndex := (currentIndex k + 1) mod length (keys k);
             initialized := initialized k |} ;;;
    emit ERotate ;;;
    ret true.

(** [getAiClient()] *)
Definition getAiClient (st : Storage) : M Client :=
  key <- getCurrentKey st ;;
  emit (EClient key) ;;;
  ret {| apiKey := key |}.

(** [aiClient.models.generateContent(request)]: one network call. *)
Definition generateContent (client : Client) (request : Request) : M T :=
  fun w =>
    let w' := {| km := km w; rng := rng w; calls := S (calls w);
                 trace := trace w ++ [ECall (apiKey client) (req_model request)] |} in
    match backend (apiKey client) request (calls w) with
    | inl response => (Return response, w')
    | inr error => (Throw error, w')
    end.

(** The loop of [withRateLimitHandling]; [left] is the number of
    iterations the [for] loop has left, [MAX_RETRIES + 1 - attempt]. *)
Fixpoint withRateLimitHandling_loop (apiCall : M T) (left attempt : nat)
    : M T :=
  match left with
  | O => throw (ErrorObj "API call failed after internal retries.")
  | S left' =>
      try apiCall
      catch (fun error =>
        let errorMessage := errorMessageLower error in
        if includes "limit: 0" errorMessage
           || includes "quota exceeded for metric" errorMessage then
          throw (ErrorObj ("API Quota Exceeded (Limit: 0) or Model Unavailable: "
                           ++ errorMessage))
        else
          let shouldRotate := isRotationTrigger error in
          k <- getKM ;;
          let hasBackupKeys := (1 <? length (keys k))%nat in
          if shouldRotate && hasBackupKeys then throw error
          else if (attempt =? MAX_RETRIES)%nat then
            if shouldRotate then
              throw (ErrorObj ("Quota Exceeded or Key Suspended: "
                               ++ errorMessage))
            else throw error
          else
            r <- Math_random ;;
            delay (backoffTime shouldRotate attempt r) ;;;
            withRateLimitHandling_loop apiCall left' (S attempt))
  end.

Definition withRateLimitHandling (apiCall : M T) : M T :=
  withRateLimitHandling_loop apiCall MAX_RETRIES 1.

(** The loop of [executeWithKeyRotation]; [left] is the number of
    iterations left, [maxAttempts - attempt]. *)
Fixpoint executeWithKeyRotation_loop (st : Storage)
    (operation : Client -> M T) (maxAttempts left attempt : nat) : M T :=
  match left with
  | O => throw (ErrorObj "All Gemini API Keys exhausted (Rotation loop ended without success).")
  | S left' =>
      try (client <- getAiClient st ;;
           withRateLimitHandling (operation client))
      catch (fun error =>
        let errorMessage := errorMessageLower error in
        let shouldRotate := isRotationTrigger error in
        k <- getKM ;;
        if shouldRotate && (1 <? length (keys k))%nat then
          rotate ;;;
          delay 10000 ;;;
          executeWithKeyRotation_loop st operation maxAttempts left'
            (S attempt)
        else if (attempt =? maxAttempts - 1)%nat then
          if shouldRotate then
            throw (ErrorObj ("All Gemini API Keys exhausted (Quota/Suspended). Last error: "
                             ++ errorMessage))
          else throw error
        else throw error)
  end.

Definition executeWithKeyRotation (st : Storage)
    (operation : Client -> M T) (modelName : string) : M T :=
  loadKeys st ;;;
  k <- getKM ;;
  let maxAttempts := maxAttemptsOf k in
  executeWithKeyRotation_loop st operation maxAttempts maxAttempts 0.

Definition callModel (st : Storage)
    (model systemInstruction userPrompt : string) (config : CallConfig)
    : M T :=
  if startsWith "gemini-" model then
    try executeWithKeyRotation st
          (fun aiClient =>
             generateContent aiClient
               (buildRequest model systemInstruction userPrompt config))
          model
    catch (fun error =>
      if isQuotaExhausted error && String.eqb model "gemini-2.5-flash" then
        executeWithKeyRotation st
          (fun aiClient =>
             generateContent aiClient
               (buildRequest fallbackModel systemInstruction userPrompt
                  config))
          fallbackModel
      else throw error)
  else throw (ErrorObj ("Unsupported model: " ++ model)).

(** ** Observations on worlds and logs *)

Definition exec {A} (m : M A) (w : World) : World := snd (m w).
Definition result {A} (m : M A) (w : World) : Outcome A := fst (m w).

(** The world after one network call with [key] for [model]. *)
Definition called (key : option string) (model : string) (w : World)
    : World :=
  {| km := km w; rng := rng w; calls := S (calls w);
     trace := trace w ++ [ECall key model] |}.

(** The world after one draw of [Math.random()]. *)
Definition drew (w : World) : World :=
  {| km := km w; rng := S (rng w); calls := calls w; trace := trace w |}.

Definition isClient (e : Event) : bool :=
  match e with EClient _ => true | _ => false end.
Definition isCall (e : Event) : bool :=
  match e with ECall _ _ => true | _ => false end.
Definition isRotate (e : Event) : bool :=
  match e with ERotate => true | _ => false end.
Definition isDelay (e : Event) : bool :=
  match e with EDelay _ => true | _ => false end.

(** Outer attempts: one client is built per iteration of the outer loop. *)
Definition outerAttempts (tr : list Event) : nat :=
  length (filter isClient tr).
Definition networkCalls (tr : list Event) : nat :=
  length (filter isCall tr).
Definition rotations (tr : list Event) : nat :=
  length (filter isRotate tr).
Definition waits (tr : list Event) : nat :=
  length (filter isDelay tr).

(** What a reload does to the index once the manager is initialized. *)
Definition clampIndex (newKeys : list string) (k : KeyManagerState)
    : KeyManagerState :=
  {| keys := newKeys;
     currentIndex :=
       if (0 <? length newKeys)%nat && (length newKeys <=? currentIndex k)%nat
       then 0%nat else currentIndex k;
     initialized := initialized k |}.

Definition advanceIndex (k : KeyManagerState) : KeyManagerState :=
  {| keys := keys k;
     currentIndex := (currentIndex k + 1) mod length (keys k);
     initialized := initialized k |}.

(** The pool as loaded from [st] by an initialized manager. *)
Definition loaded (st : Storage) (w : World) : Prop :=
  keys (km w) = configuredKeys st /\ initialized (km w) = true.

(** The index invariant of the data model. *)
Definition indexInBounds (k : KeyManagerState) : Prop :=
  (0 < length (keys k))%nat -> (currentIndex k < length (keys k))%nat.

(** One operation of the pool; a reload reads the storage of the moment. *)
Inductive PoolOp : Type :=
| OpLoadKeys (st : Storage)
| OpGetCurrentKey (st : Storage)
| OpRotate.

Definition runPoolOp (op : PoolOp) (w : World) : World :=
  match op with
  | OpLoadKeys st => exec (loadKeys st) w
  | OpGetCurrentKey st => exec (getCurrentKey st) w
  | OpRotate => exec rotate w
  end.

Definition runPoolOps (ops : list PoolOp) (w : World) : World :=
  fold_left (fun w op => runPoolOp op w) ops w.

(** The operation [callModel] hands to the executor. *)
Definition requestOp (request : Request) : Client -> M T :=
  fun aiClient => generateContent aiClient request.

Definition in_unit_interval (r : Q) : Prop := (0 <= r /\ r < 1)%Q.

(** The credential [getCurrentKey] returns for a non-empty pool. *)
Definition currentKey (k : KeyManagerState) : option string :=
  nth_error (keys k) (currentIndex k).

(** The world after the reload done by [getCurrentKey] on an initialized
    manager. *)
Definition selected (st : Storage) (w : World) : World :=
  with_km (clampIndex (configuredKeys st) (km w)) w.

(** The [try] block of one iteration of the outer loop. *)
Definition attemptBody (st : Storage) (operation : Client -> M T) : M T :=
  client <- getAiClient st ;;
  withRateLimitHandling (operation client).

(** The world after [KeyManager.rotate()] advanced and the cooldown
    [await delay(10000)] was served. *)
Definition rotated (w : World) : World :=
  log (EDelay 10000) (log ERotate (with_km (advanceIndex (km w)) w)).

Definition loopEndedError : JsError :=
  ErrorObj "All Gemini API Keys exhausted (Rotation loop ended without success).".

Definition exhaustedError (lastMessage : string) : JsError :=
  ErrorObj ("All Gemini API Keys exhausted (Quota/Suspended). Last error: "
            ++ lastMessage).

Definition hardQuotaError (e : JsError) : JsError :=
  ErrorObj ("API Quota Exceeded (Limit: 0) or Model Unavailable: "
            ++ errorMessageLower e).

Definition suspendedError (e : JsError) : JsError :=
  ErrorObj ("Quota Exceeded or Key Suspended: " ++ errorMessageLower e).

(** The log of an inner loop whose calls all fail and are all retried:
    [n] failed calls, each followed by its backoff wait, then the last
    call. [attempt] is the number of the first of them and [c] the
    position of the random cursor. *)
Fixpoint backoffLog (call : Event) (shouldRotate : bool)
    (attempt c n : nat) : list Event :=
  match n with
  | O => [call]
  | S n' =>
      call :: EDelay (backoffTime shouldRotate attempt (rand c))
           :: backoffLog call shouldRotate (S attempt) (S c) n'
  end.

(** The waits and the credentials of the clients of a log, in order. *)
Definition delaysOf (tr : list Event) : list Q :=
  flat_map (fun e => match e with EDelay ms => [ms] | _ => [] end) tr.

Definition clientsOf (tr : list Event) : list (option string) :=
  flat_map (fun e => match e with EClient key => [key] | _ => [] end) tr.

(** The range every wait of the executor falls in, in milliseconds. Both
    ends are among the values a wait can be rounded to. *)
Definition waitInRange (ms : Q) : Prop := (2000 <= ms)%Q /\ (ms <= 16500)%Q.


(** The log of [n] failed calls that are each followed by a backoff wait. *)
Fixpoint retriedLog (call : Event) (shouldRotate : bool)
    (attempt c n : nat) : list Event :=
  match n with
  | O => []
  | S n' =>
      call :: EDelay (backoffTime shouldRotate attempt (rand c))
           :: retriedLog call shouldRotate (S attempt) (S c) n'
  end.


(** The credentials of the network calls of a log, in order. *)
Definition callKeysOf (tr : list Event) : list (option string) :=
  flat_map (fun e => match e with ECall key _ => [key] | _ => [] end) tr.

(** A credential that is one of the configured keys. *)
Definition isConfiguredKey (st : Storage) (key : option string) : Prop :=
  exists k, key = Some k /\ In k (configuredKeys st).

(** * Properties *)

(** ** Strings *)

Lemma lowerAscii_idem (c : ascii) : lowerAscii (lowerAscii c) = lowerAscii c.
Proof.
  destruct c as [[] [] [] [] [] [] [] []]; reflexivity.
Qed.

Lemma toLowerCase_idem (s : string) :
  toLowerCase (toLowerCase s) = toLowerCase s.
Proof.
  induction s as [|c s IH]; simpl; [reflexivity|].
  now rewrite lowerAscii_idem, IH.
Qed.

Lemma toLowerCase_app (a b : string) :
  toLowerCase (a ++ b)%string = (toLowerCase a ++ toLowerCase b)%string.
Proof.
  induction a as [|c a IH]; simpl; [reflexivity|]. now rewrite IH.
Qed.

Lemma startsWith_app (p a b : string) :
  startsWith p a = true -> startsWith p (a ++ b)%string = true.
Proof.
  revert a; induction p as [|c p IH]; intros a H; [reflexivity|].
  destruct a as [|d a]; simpl in *; [discriminate|].
  apply andb_true_iff in H as [Hc Hp].
  now rewrite Hc, (IH _ Hp).
Qed.

Lemma startsWith_self_app (p b : string) : startsWith p (p ++ b)%string = true.
Proof.
  induction p as [|c p IH]; simpl; [reflexivity|].
  now rewrite Ascii.eqb_refl, IH.
Qed.

Lemma includes_unfold (p s : string) :
  includes p s =
  startsWith p s ||
  match s with
  | EmptyString => false
  | String _ s' => includes p s'
  end.
Proof. destruct s; reflexivity. Qed.

Lemma includes_app_l (p a b : string) :
  includes p a = true -> includes p (a ++ b)%string = true.
Proof.
  induction a as [|c a IH]; intros H.
  - rewrite includes_unfold in H. rewrite orb_false_r in H.
    rewrite includes_unfold. now rewrite (startsWith_app _ _ b H).
  - rewrite includes_unfold in H. apply orb_true_iff in H as [H|H].
    + rewrite includes_unfold. now rewrite (startsWith_app _ _ b H).
    + change (String c a ++ b)%string with (String c (a ++ b)%string).
      rewrite includes_unfold. rewrite (IH H). apply orb_true_r.
Qed.

Lemma includes_app_r (p a b : string) :
  includes p b = true -> includes p (a ++ b)%string = true.
Proof.
  intros H. induction a as [|c a IH]; [exact H|].
  change (String c a ++ b)%string with (String c (a ++ b)%string).
  rewrite includes_unfold, IH. apply orb_true_r.
Qed.

Lemma includes_self_app (a p b : string) : includes p (a ++ p ++ b)%string = true.
Proof.
  apply includes_app_r. rewrite includes_unfold.
  now rewrite startsWith_self_app.
Qed.

(** The two errors that [withRateLimitHandling] builds itself are read as
    rotation triggers by the outer loop: both say "quota". *)
Lemma hardQuota_error_is_rotationTrigger (m : string) :
  isRotationTrigger
    (ErrorObj ("API Quota Exceeded (Limit: 0) or Model Unavailable: " ++ m))
  = true.
Proof.
  unfold isRotationTrigger, errorTextLower. rewrite toLowerCase_app.
  rewrite (includes_app_l "quota") by reflexivity.
  now rewrite orb_true_r.
Qed.

Lemma suspended_error_is_rotationTrigger (m : string) :
  isRotationTrigger (ErrorObj ("Quota Exceeded or Key Suspended: " ++ m))
  = true.
Proof.
  unfold isRotationTrigger, errorTextLower. rewrite toLowerCase_app.
  rewrite (includes_app_l "quota") by reflexivity.
  now rewrite orb_true_r.
Qed.

(** ** The credential pool *)

Lemma Math_floor_in_range (r : Q) (n : nat) :
  in_unit_interval r -> (0 < n)%nat ->
  (Math_floor (r * inject_Z (Z.of_nat n)) < n)%nat.
Proof.
  intros [H0 H1] Hn. unfold Math_floor.
  assert (Hpos : (0 < inject_Z (Z.of_nat n))%Q).
  { change 0%Q with (inject_Z 0). rewrite <- Zlt_Qlt. lia. }
  assert (Hlt : (r * inject_Z (Z.of_nat n) < inject_Z (Z.of_nat n))%Q).
  { setoid_replace (inject_Z (Z.of_nat n)) with (1 * inject_Z (Z.of_nat n))%Q
      at 2 by ring.
    apply Qmult_lt_compat_r; assumption. }
  assert (Hfl : (Qfloor (r * inject_Z (Z.of_nat n)) < Z.of_nat n)%Z).
  { rewrite Zlt_Qlt. eapply Qle_lt_trans; [apply Qfloor_le | exact Hlt]. }
  assert (Hge : (0 <= Qfloor (r * inject_Z (Z.of_nat n)))%Z).
  { change 0%Z with (Qfloor (inject_Z 0)) at 1.
    apply Qfloor_resp_le. apply Qmult_le_0_compat; [exact H0|].
    apply Qlt_le_weak, Hpos. }
  lia.
Qed.

(** A reload that does not draw: the manager is initialized already, or
    there is nothing to index. *)
Lemma loadKeys_no_draw (st : Storage) (w : World) :
  initialized (km w) = true \/ configuredKeys st = [] ->
  loadKeys st w
  = (Return tt, with_km (clampIndex (configuredKeys st) (km w)) w).
Proof.
  destruct w as [[ks i ini] r c t]. unfold loadKeys, clampIndex, bind,
    getKM, putKM, with_km, ret. simpl.
  intros [H|H].
  - subst ini. simpl.
    destruct (0 <? length (configuredKeys st))%nat; simpl; [|reflexivity].
    destruct (length (configuredKeys st) <=? i)%nat; reflexivity.
  - rewrite H. simpl. rewrite andb_false_r. reflexivity.
Qed.

(** The one reload that draws: first load of a non-empty pool. *)
Lemma loadKeys_first (st : Storage) (w : World) :
  initialized (km w) = false -> configuredKeys st <> [] ->
  loadKeys st w
  = (Return tt,
     {| km := {| keys := configuredKeys st;
                 currentIndex :=
                   Math_floor (rand (rng w)
                     * inject_Z (Z.of_nat (length (configuredKeys st))));
                 initialized := true |};
        rng := S (rng w); calls := calls w; trace := trace w |}).
Proof.
  destruct w as [[ks i ini] r c t]. simpl. intros -> Hne.
  unfold loadKeys, bind, getKM, putKM, with_km, Math_random. simpl.
  destruct (configuredKeys st) as [|k0 ks0]; [congruence|]. reflexivity.
Qed.

Lemma loadKeys_cases (st : Storage) (w : World) :
  (initialized (km w) = true \/ configuredKeys st = []) \/
  (initialized (km w) = false /\ configuredKeys st <> []).
Proof.
  destruct (initialized (km w)); [left; now left|].
  destruct (configuredKeys st); [left; now right|].
  right. split; [reflexivity|discriminate].
Qed.

Lemma loadKeys_returns (st : Storage) (w : World) :
  loadKeys st w = (Return tt, exec (loadKeys st) w).
Proof.
  unfold exec. destruct (loadKeys_cases st w) as [H|[H1 H2]].
  - now rewrite (loadKeys_no_draw st w H).
  - now rewrite (loadKeys_first st w H1 H2).
Qed.

Lemma loadKeys_keys (st : Storage) (w : World) :
  keys (km (exec (loadKeys st) w)) = configuredKeys st.
Proof.
  unfold exec. destruct (loadKeys_cases st w) as [H|[H1 H2]].
  - now rewrite (loadKeys_no_draw st w H).
  - now rewrite (loadKeys_first st w H1 H2).
Qed.

Lemma loadKeys_trace_calls (st : Storage) (w : World) :
  trace (exec (loadKeys st) w) = trace w /\
  calls (exec (loadKeys st) w) = calls w.
Proof.
  unfold exec. destruct (loadKeys_cases st w) as [H|[H1 H2]].
  - now rewrite (loadKeys_no_draw st w H).
  - now rewrite (loadKeys_first st w H1 H2).
Qed.

Lemma loadKeys_index_in_bounds (st : Storage) (w : World) :
  in_unit_interval (rand (rng w)) ->
  indexInBounds (km (exec (loadKeys st) w)).
Proof.
  intros Hr. unfold exec, indexInBounds.
  destruct (loadKeys_cases st w) as [H|[H1 H2]].
  - rewrite (loadKeys_no_draw st w H). simpl. intros Hpos.
    apply Nat.ltb_lt in Hpos as Hb. rewrite Hb. simpl.
    destruct (length (configuredKeys st) <=? currentIndex (km w))%nat eqn:E;
      [exact Hpos|].
    apply Nat.leb_gt in E. exact E.
  - rewrite (loadKeys_first st w H1 H2). simpl. intros Hpos.
    now apply Math_floor_in_range.
Qed.

Lemma loadKeys_initialized_after (st : Storage) (w : World) :
  initialized (km w) = true ->
  initialized (km (exec (loadKeys st) w)) = true /\
  rng (exec (loadKeys st) w) = rng w.
Proof.
  intros H. unfold exec.
  rewrite (loadKeys_no_draw st w (or_introl H)). simpl. now split.
Qed.

Lemma loadKeys_rng_le (st : Storage) (w : World) :
  (rng (exec (loadKeys st) w) <= S (rng w))%nat /\
  (rng w <> rng (exec (loadKeys st) w) ->
   initialized (km w) = false /\
   initialized (km (exec (loadKeys st) w)) = true).
Proof.
  unfold exec. destruct (loadKeys_cases st w) as [H|[H1 H2]].
  - rewrite (loadKeys_no_draw st w H). simpl. split; [lia|congruence].
  - rewrite (loadKeys_first st w H1 H2). simpl. split; [lia|now split].
Qed.

(** Reloading a pool that is loaded and in bounds changes nothing. *)
Lemma loadKeys_settled (st : Storage) (w : World) :
  keys (km w) = configuredKeys st ->
  initialized (km w) = true \/ configuredKeys st = [] ->
  indexInBounds (km w) ->
  loadKeys st w = (Return tt, w).
Proof.
  intros Hk Hi Hb. rewrite (loadKeys_no_draw st w Hi).
  destruct w as [[ks i ini] r c t]. simpl in *. subst ks.
  unfold with_km, clampIndex, indexInBounds in *. simpl in *.
  destruct (0 <? length (configuredKeys st))%nat eqn:E; simpl.
  - apply Nat.ltb_lt in E. specialize (Hb E).
    apply Nat.leb_gt in Hb. now rewrite Hb.
  - reflexivity.
Qed.

Lemma getCurrentKey_exec (st : Storage) (w : World) :
  exec (getCurrentKey st) w = exec (loadKeys st) w.
Proof.
  unfold exec at 1. unfold getCurrentKey, bind.
  rewrite (loadKeys_returns st w). unfold getKM.
  destruct (length (keys (km (exec (loadKeys st) w))) =? 0)%nat;
    reflexivity.
Qed.

Lemma rotate_spec (w : World) :
  rotate w =
  if (length (keys (km w)) <=? 1)%nat then (Return false, w)
  else (Return true, log ERotate (with_km (advanceIndex (km w)) w)).
Proof.
  unfold rotate, bind, getKM.
  destruct (length (keys (km w)) <=? 1)%nat; reflexivity.
Qed.

Lemma rotate_index_in_bounds (w : World) :
  indexInBounds (km w) -> indexInBounds (km (exec rotate w)).
Proof.
  unfold exec. rewrite rotate_spec.
  destruct (length (keys (km w)) <=? 1)%nat eqn:E; [trivial|].
  intros _. unfold indexInBounds. simpl. intros Hpos.
  apply Nat.mod_upper_bound. lia.
Qed.

Lemma runPoolOp_index_in_bounds (op : PoolOp) (w : World) :
  (forall n, in_unit_interval (rand n)) ->
  indexInBounds (km w) -> indexInBounds (km (runPoolOp op w)).
Proof.
  intros Hr Hw. destruct op as [st|st|]; simpl.
  - apply loadKeys_index_in_bounds, Hr.
  - rewrite getCurrentKey_exec. apply loadKeys_index_in_bounds, Hr.
  - now apply rotate_index_in_bounds.
Qed.

Lemma runPoolOp_draws (op : PoolOp) (w : World) :
  (rng w <= rng (runPoolOp op w) <= S (rng w))%nat /\
  (initialized (km w) = true ->
   initialized (km (runPoolOp op w)) = true /\ rng (runPoolOp op w) = rng w) /\
  (rng w <> rng (runPoolOp op w) -> initialized (km (runPoolOp op w)) = true).
Proof.
  assert (L : forall st,
    (rng w <= rng (exec (loadKeys st) w) <= S (rng w))%nat /\
    (initialized (km w) = true ->
     initialized (km (exec (loadKeys st) w)) = true /\
     rng (exec (loadKeys st) w) = rng w) /\
    (rng w <> rng (exec (loadKeys st) w) ->
     initialized (km (exec (loadKeys st) w)) = true)).
  { intros st. split; [|split].
    - unfold exec. destruct (loadKeys_cases st w) as [H|[H1 H2]].
      + rewrite (loadKeys_no_draw st w H). simpl. lia.
      + rewrite (loadKeys_first st w H1 H2). simpl. lia.
    - apply loadKeys_initialized_after.
    - intros H. now apply (loadKeys_rng_le st w) in H. }
  destruct op as [st|st|]; simpl.
  - apply L.
  - rewrite getCurrentKey_exec. apply L.
  - unfold exec. rewrite rotate_spec.
    destruct (length (keys (km w)) <=? 1)%nat; simpl;
      (split; [lia|split; [tauto|congruence]]).
Qed.

Lemma runPoolOps_initialized (ops : list PoolOp) (w : World) :
  initialized (km w) = true ->
  initialized (km (runPoolOps ops w)) = true /\ rng (runPoolOps ops w) = rng w.
Proof.
  revert w. induction ops as [|op ops IH]; intros w H; [now split|].
  simpl. destruct (runPoolOp_draws op w) as (_ & Hi & _).
  destruct (Hi H) as [Hi1 Hi2].
  destruct (IH _ Hi1) as [IH1 IH2]. split; [exact IH1|congruence].
Qed.

Lemma runPoolOps_draws_at_most_once (ops : list PoolOp) (w : World) :
  (rng w <= rng (runPoolOps ops w) <= S (rng w))%nat.
Proof.
  revert w. induction ops as [|op ops IH]; intros w; simpl; [lia|].
  destruct (runPoolOp_draws op w) as (Hle & _ & Hne).
  destruct (Nat.eq_dec (rng w) (rng (runPoolOp op w))) as [E|E].
  - specialize (IH (runPoolOp op w)). lia.
  - destruct (runPoolOps_initialized ops _ (Hne E)) as [_ Hr]. lia.
Qed.

Lemma runPoolOps_index_in_bounds (ops : list PoolOp) (w : World) :
  (forall n, in_unit_interval (rand n)) ->
  indexInBounds (km w) -> indexInBounds (km (runPoolOps ops w)).
Proof.
  intros Hr. revert w. induction ops as [|op ops IH]; intros w Hw;
    [exact Hw|].
  simpl. apply IH. now apply runPoolOp_index_in_bounds.
Qed.

Lemma loadKeys_initialized_or_empty (st : Storage) (w : World) :
  initialized (km (exec (loadKeys st) w)) = true \/ configuredKeys st = [].
Proof.
  unfold exec. destruct (loadKeys_cases st w) as [[H|H]|[H1 H2]].
  - left. now rewrite (loadKeys_no_draw st w (or_introl H)).
  - now right.
  - left. now rewrite (loadKeys_first st w H1 H2).
Qed.

(** C7. [loadKeys] is idempotent: a second reload under the same
    configuration leaves the whole world, hence [currentIndex], as the
    first reload left it; an initialized manager never draws a random
    index again, whatever it reloads; and over any sequence of pool
    operations at most one random draw is made. *)
Theorem loadKeys_idempotent (st : Storage) (w : World) :
  in_unit_interval (rand (rng w)) ->
  let w1 := exec (loadKeys st) w in
  currentIndex (km (exec (loadKeys st) w1)) = currentIndex (km w1) /\
  exec (loadKeys st) w1 = w1 /\
  (forall st' w', initialized (km w') = true ->
     rng (exec (loadKeys st') w') = rng w' /\
     initialized (km (exec (loadKeys st') w')) = true) /\
  (forall ops w', (rng (runPoolOps ops w') <= S (rng w'))%nat) /\
  (forall ops w', initialized (km w') = true ->
     rng (runPoolOps ops w') = rng w').
Proof.
  intros Hr w1.
  assert (E : exec (loadKeys st) w1 = w1).
  { unfold exec at 1. rewrite (loadKeys_settled st w1); [reflexivity| | |].
    - apply loadKeys_keys.
    - apply loadKeys_initialized_or_empty.
    - now apply loadKeys_index_in_bounds. }
  split; [now rewrite E|]. split; [exact E|]. split; [|split].
  - intros st' w' H. destruct (loadKeys_initialized_after st' w' H). now split.
  - intros ops w'. apply runPoolOps_draws_at_most_once.
  - intros ops w' H. now apply runPoolOps_initialized.
Qed.

(** C9. The index invariant [0 <= currentIndex < keys.length] (for a
    non-empty pool) holds at start-up and is kept by every pool operation;
    [rotate] returns [true] exactly when there are at least two keys and
    then moves the index to [(currentIndex + 1) mod keys.length], and
    otherwise returns [false] and changes nothing. *)
Theorem index_invariant_and_rotate :
  (forall n, in_unit_interval (rand n)) ->
  indexInBounds KeyManager_initial /\
  (forall op w, indexInBounds (km w) -> indexInBounds (km (runPoolOp op w))) /\
  (forall ops w, km w = KeyManager_initial ->
     indexInBounds (km (runPoolOps ops w))) /\
  (forall st w, indexInBounds (km (exec (loadKeys st) w))) /\
  (forall w,
     result rotate w = Return (2 <=? length (keys (km w)))%nat /\
     keys (km (exec rotate w)) = keys (km w) /\
     ((2 <= length (keys (km w)))%nat ->
      currentIndex (km (exec rotate w))
      = (currentIndex (km w) + 1) mod length (keys (km w))) /\
     ((length (keys (km w)) < 2)%nat -> exec rotate w = w)).
Proof.
  intros Hr. split; [|split; [|split; [|split]]].
  - unfold indexInBounds. simpl. lia.
  - intros op w. now apply runPoolOp_index_in_bounds.
  - intros ops w H. apply runPoolOps_index_in_bounds; [exact Hr|].
    rewrite H. unfold indexInBounds. simpl. lia.
  - intros st w. apply loadKeys_index_in_bounds, Hr.
  - intros w. unfold result, exec. rewrite rotate_spec.
    destruct (length (keys (km w)) <=? 1)%nat eqn:E.
    + apply Nat.leb_le in E. cbn [fst snd].
      replace (2 <=? length (keys (km w)))%nat with false
        by (symmetry; apply Nat.leb_gt; lia).
      repeat split; try reflexivity; intros; lia.
    + apply Nat.leb_gt in E. cbn [fst snd].
      replace (2 <=? length (keys (km w)))%nat with true
        by (symmetry; apply Nat.leb_le; lia).
      repeat split; try reflexivity; intros; lia.
Qed.

(** ** The inner retry loop *)

Lemma called_generateContent (client : Client) (request : Request)
    (w : World) :
  generateContent client request w
  = (match backend (apiKey client) request (calls w) with
     | inl response => Return response
     | inr error => Throw error
     end, called (apiKey client) (req_model request) w).
Proof.
  unfold generateContent, called.
  destruct (backend (apiKey client) request (calls w)); reflexivity.
Qed.

Section InnerLoop.

Variable apiCall : M T.

Lemma inner_success (left attempt : nat) (w w1 : World) (r : T) :
  apiCall w = (Return r, w1) ->
  withRateLimitHandling_loop apiCall (S left) attempt w = (Return r, w1).
Proof.
  intros H. simpl. unfold try_catch. now rewrite H.
Qed.

Lemma inner_hardQuotaZero (left attempt : nat) (w w1 : World)
    (e : JsError) :
  apiCall w = (Throw e, w1) ->
  isHardQuotaZero e = true ->
  withRateLimitHandling_loop apiCall (S left) attempt w
  = (Throw (ErrorObj ("API Quota Exceeded (Limit: 0) or Model Unavailable: "
                      ++ errorMessageLower e)), w1).
Proof.
  intros H Hq. simpl. unfold try_catch. rewrite H.
  unfold isHardQuotaZero in Hq. now rewrite Hq.
Qed.

Lemma inner_rotation_with_backup (left attempt : nat) (w w1 : World)
    (e : JsError) :
  apiCall w = (Throw e, w1) ->
  isHardQuotaZero e = false ->
  isRotationTrigger e = true ->
  (1 < length (keys (km w1)))%nat ->
  withRateLimitHandling_loop apiCall (S left) attempt w = (Throw e, w1).
Proof.
  intros H Hq Hrot Hk. simpl. unfold try_catch. rewrite H.
  unfold isHardQuotaZero in Hq. rewrite Hq.
  unfold bind, getKM. rewrite Hrot.
  apply Nat.ltb_lt in Hk. now rewrite Hk.
Qed.

Lemma inner_last_attempt (left : nat) (w w1 : World) (e : JsError) :
  apiCall w = (Throw e, w1) ->
  isHardQuotaZero e = false ->
  isRotationTrigger e && (1 <? length (keys (km w1)))%nat = false ->
  withRateLimitHandling_loop apiCall (S left) MAX_RETRIES w
  = (Throw (if isRotationTrigger e
            then ErrorObj ("Quota Exceeded or Key Suspended: "
                           ++ errorMessageLower e)
            else e), w1).
Proof.
  intros H Hq Hrot. simpl. unfold try_catch. rewrite H.
  unfold isHardQuotaZero in Hq. rewrite Hq.
  unfold bind, getKM. rewrite Hrot.
  destruct (isRotationTrigger e); reflexivity.
Qed.

Lemma inner_retry (left attempt : nat) (w w1 : World) (e : JsError) :
  apiCall w = (Throw e, w1) ->
  isHardQuotaZero e = false ->
  isRotationTrigger e && (1 <? length (keys (km w1)))%nat = false ->
  attempt <> MAX_RETRIES ->
  withRateLimitHandling_loop apiCall (S left) attempt w
  = withRateLimitHandling_loop apiCall left (S attempt)
      (log (EDelay (backoffTime (isRotationTrigger e) attempt
                      (rand (rng w1))))
           (drew w1)).
Proof.
  intros H Hq Hrot Hk.
  cbn [withRateLimitHandling_loop]. unfold try_catch. rewrite H.
  unfold isHardQuotaZero in Hq. rewrite Hq.
  unfold bind at 1. unfold getKM. rewrite Hrot.
  apply Nat.eqb_neq in Hk. rewrite Hk.
  reflexivity.
Qed.

End InnerLoop.

(** ** Counting events *)

Lemma filter_log (f : Event -> bool) (e : Event) (w : World) :
  length (filter f (trace (log e w)))
  = (length (filter f (trace w)) + (if f e then 1 else 0))%nat.
Proof.
  unfold log. simpl. rewrite filter_app, length_app. simpl.
  destruct (f e); reflexivity.
Qed.

Lemma filter_called (f : Event -> bool) key model (w : World) :
  length (filter f (trace (called key model w)))
  = (length (filter f (trace w)) + (if f (ECall key model) then 1 else 0))%nat.
Proof.
  unfold called. simpl. rewrite filter_app, length_app. simpl.
  destruct (f (ECall key model)); reflexivity.
Qed.

(** The inner loop touches neither the key manager nor the count of
    clients and rotations, whatever the backend answers. *)
Lemma inner_preserves (client : Client) (request : Request)
    (left attempt : nat) (w : World) (o : Outcome T) (w' : World) :
  withRateLimitHandling_loop (generateContent client request) left attempt w
  = (o, w') ->
  km w' = km w /\
  outerAttempts (trace w') = outerAttempts (trace w) /\
  rotations (trace w') = rotations (trace w).
Proof.
  revert attempt w. induction left as [|left IH]; intros attempt w H.
  - simpl in H. unfold throw in H. inversion H; subst. auto.
  - cbn [withRateLimitHandling_loop] in H. unfold try_catch in H.
    rewrite called_generateContent in H.
    set (w1 := called (apiKey client) (req_model request) w) in *.
    assert (H1 : km w1 = km w /\
                 outerAttempts (trace w1) = outerAttempts (trace w) /\
                 rotations (trace w1) = rotations (trace w)).
    { unfold w1, outerAttempts, rotations. rewrite !filter_called.
      simpl. auto. }
    destruct (backend (apiKey client) request (calls w)) as [r|e];
      [inversion H; subst; exact H1|].
    destruct (includes "limit: 0" (errorMessageLower e)
              || includes "quota exceeded for metric" (errorMessageLower e));
      [inversion H; subst; exact H1|].
    unfold bind at 1 in H. unfold getKM in H.
    destruct (isRotationTrigger e && (1 <? length (keys (km w1)))%nat);
      [inversion H; subst; exact H1|].
    destruct (attempt =? MAX_RETRIES)%nat.
    { destruct (isRotationTrigger e); inversion H; subst; exact H1. }
    unfold bind, Math_random, delay, emit in H.
    apply IH in H. destruct H as (I1 & I2 & I3).
    cbn [km trace log] in I1, I2, I3.
    unfold outerAttempts, rotations in *.
    destruct H1 as (K1 & K2 & K3).
    subst w1. unfold called in *. cbn [km trace] in *.
    rewrite ?filter_app, ?length_app in *. simpl in *.
    repeat split; [congruence | lia | lia].
Qed.

(** ** One iteration of the outer loop *)

Lemma getAiClient_initialized (st : Storage) (w : World) :
  initialized (km w) = true -> configuredKeys st <> [] ->
  getAiClient st w
  = (Return {| apiKey := currentKey (km (selected st w)) |},
     log (EClient (currentKey (km (selected st w)))) (selected st w)).
Proof.
  intros Hi Hne. unfold getAiClient, getCurrentKey, bind.
  rewrite (loadKeys_no_draw st w (or_introl Hi)). unfold getKM.
  fold (selected st w).
  replace (length (keys (km (selected st w))) =? 0)%nat with false.
  - reflexivity.
  - simpl. destruct (configuredKeys st); [congruence|reflexivity].
Qed.

Lemma getAiClient_empty (st : Storage) (w : World) :
  configuredKeys st = [] ->
  getAiClient st w = (Throw noKeyError, selected st w).
Proof.
  intros He. unfold getAiClient, getCurrentKey, bind.
  rewrite (loadKeys_no_draw st w (or_intror He)). unfold getKM.
  fold (selected st w). simpl. now rewrite He.
Qed.

Lemma attemptBody_initialized (st : Storage) (operation : Client -> M T)
    (w : World) :
  initialized (km w) = true -> configuredKeys st <> [] ->
  attemptBody st operation w
  = withRateLimitHandling
      (operation {| apiKey := currentKey (km (selected st w)) |})
      (log (EClient (currentKey (km (selected st w)))) (selected st w)).
Proof.
  intros Hi Hne. unfold attemptBody, bind.
  now rewrite (getAiClient_initialized st w Hi Hne).
Qed.

Section OuterLoop.

Variable st : Storage.
Variable operation : Client -> M T.
Variable maxAttempts : nat.

Lemma outer_success (left attempt : nat) (w w2 : World) (r : T) :
  attemptBody st operation w = (Return r, w2) ->
  executeWithKeyRotation_loop st operation maxAttempts (S left) attempt w
  = (Return r, w2).
Proof.
  intros H. cbn [executeWithKeyRotation_loop]. unfold try_catch.
  fold (attemptBody st operation). now rewrite H.
Qed.

Lemma outer_rotate (left attempt : nat) (w w2 : World) (e : JsError) :
  attemptBody st operation w = (Throw e, w2) ->
  isRotationTrigger e = true ->
  (1 < length (keys (km w2)))%nat ->
  executeWithKeyRotation_loop st operation maxAttempts (S left) attempt w
  = executeWithKeyRotation_loop st operation maxAttempts left (S attempt)
      (rotated w2).
Proof.
  intros H Hrot Hk. cbn [executeWithKeyRotation_loop]. unfold try_catch.
  fold (attemptBody st operation). rewrite H.
  unfold bind at 1. unfold getKM. rewrite Hrot.
  apply Nat.ltb_lt in Hk as Hb. rewrite Hb. cbn [andb].
  unfold bind at 1. rewrite rotate_spec.
  replace (length (keys (km w2)) <=? 1)%nat with false
    by (symmetry; apply Nat.leb_gt; exact Hk).
  reflexivity.
Qed.

Lemma outer_propagate (left attempt : nat) (w w2 : World) (e : JsError) :
  attemptBody st operation w = (Throw e, w2) ->
  isRotationTrigger e && (1 <? length (keys (km w2)))%nat = false ->
  executeWithKeyRotation_loop st operation maxAttempts (S left) attempt w
  = (Throw (if (attempt =? maxAttempts - 1)%nat && isRotationTrigger e
            then exhaustedError (errorMessageLower e) else e), w2).
Proof.
  intros H Hrot. cbn [executeWithKeyRotation_loop]. unfold try_catch.
  fold (attemptBody st operation). rewrite H.
  unfold bind at 1. unfold getKM. rewrite Hrot.
  destruct (attempt =? maxAttempts - 1)%nat; [|reflexivity].
  destruct (isRotationTrigger e); reflexivity.
Qed.

End OuterLoop.

Lemma executeWithKeyRotation_unfold (st : Storage)
    (operation : Client -> M T) (modelName : string) (w : World) :
  executeWithKeyRotation st operation modelName w
  = executeWithKeyRotation_loop st operation
      (maxAttemptsOf (km (exec (loadKeys st) w)))
      (maxAttemptsOf (km (exec (loadKeys st) w))) 0
      (exec (loadKeys st) w).
Proof.
  unfold executeWithKeyRotation, bind.
  rewrite (loadKeys_returns st w). reflexivity.
Qed.

Lemma maxAttemptsOf_max (k : KeyManagerState) :
  maxAttemptsOf k = Nat.max 1 (length (keys k)).
Proof.
  unfold maxAttemptsOf. destruct (length (keys k)) as [|n]; simpl;
    [reflexivity|]. destruct n; reflexivity.
Qed.

Lemma loadKeys_loaded (st : Storage) (w : World) :
  configuredKeys st <> [] -> loaded st (exec (loadKeys st) w).
Proof.
  intros Hne. split; [apply loadKeys_keys|].
  destruct (loadKeys_initialized_or_empty st w); [assumption|congruence].
Qed.

Lemma rotated_loaded (st : Storage) (w : World) :
  loaded st w -> loaded st (rotated w).
Proof. intros [H1 H2]. split; assumption. Qed.

Lemma selected_loaded (st : Storage) (w : World) :
  initialized (km w) = true -> loaded st (selected st w).
Proof. intros H. split; [reflexivity|exact H]. Qed.

(** ** Rotation triggers on every call *)

Section AlwaysRotationTrigger.

Variable st : Storage.
Variable request : Request.
Hypothesis always_trigger :
  forall key n, exists e,
    backend key request n = inr e /\ isRotationTrigger e = true.

(** The inner loop, started inside its budget, ends in an error that the
    outer loop reads as a rotation trigger. *)
Lemma inner_always_trigger (client : Client) (left attempt : nat)
    (w : World) :
  (1 <= left)%nat -> (attempt + left = MAX_RETRIES + 1)%nat ->
  exists e' w',
    withRateLimitHandling_loop (generateContent client request)
      left attempt w = (Throw e', w') /\
    isRotationTrigger e' = true.
Proof.
  revert attempt w. induction left as [|left IH]; intros attempt w Hl Hsum;
    [lia|].
  destruct (always_trigger (apiKey client) (calls w)) as (e & Hb & Hrot).
  assert (Hcall : generateContent client request w
                  = (Throw e, called (apiKey client) (req_model request) w)).
  { rewrite called_generateContent. now rewrite Hb. }
  set (w1 := called (apiKey client) (req_model request) w) in *.
  destruct (isHardQuotaZero e) eqn:Hq.
  { eexists _, _. split.
    - apply (inner_hardQuotaZero _ _ _ _ _ _ Hcall Hq).
    - apply hardQuota_error_is_rotationTrigger. }
  destruct (1 <? length (keys (km w1)))%nat eqn:Hk.
  { eexists _, _. split.
    - apply Nat.ltb_lt in Hk.
      apply (inner_rotation_with_backup _ _ _ _ _ _ Hcall Hq Hrot Hk).
    - exact Hrot. }
  assert (Hno : isRotationTrigger e && (1 <? length (keys (km w1)))%nat
                = false) by (rewrite Hk; apply andb_false_r).
  destruct (Nat.eq_dec attempt MAX_RETRIES) as [Ha|Ha].
  - subst attempt. eexists _, _. split.
    + apply (inner_last_attempt _ _ _ _ _ Hcall Hq Hno).
    + rewrite Hrot. apply suspended_error_is_rotationTrigger.
  - rewrite (inner_retry _ _ _ _ _ _ Hcall Hq Hno Ha).
    apply IH; lia.
Qed.

Let operation : Client -> M T := requestOp request.

(** One outer iteration on a loaded pool fails with a rotation
    trigger, after building exactly one client. *)
Lemma attempt_always_trigger (w : World) :
  loaded st w -> configuredKeys st <> [] ->
  exists e' w2,
    attemptBody st operation w = (Throw e', w2) /\
    isRotationTrigger e' = true /\
    loaded st w2 /\
    outerAttempts (trace w2) = S (outerAttempts (trace w)) /\
    rotations (trace w2) = rotations (trace w).
Proof.
  intros [Hk Hi] Hne.
  rewrite (attemptBody_initialized st operation w Hi Hne).
  unfold withRateLimitHandling, operation, requestOp.
  match goal with
  | |- context [withRateLimitHandling_loop ?c _ _ ?w1] =>
      destruct (inner_always_trigger
                  {| apiKey := currentKey (km (selected st w)) |}
                  MAX_RETRIES 1 w1) as (e' & w2 & Hrun & Hrot);
      [unfold MAX_RETRIES; lia | reflexivity |]
  end.
  exists e', w2. split; [exact Hrun|]. split; [exact Hrot|].
  apply inner_preserves in Hrun. destruct Hrun as (P1 & P2 & P3).
  unfold outerAttempts, rotations in *. rewrite filter_log in P2, P3.
  simpl in P2, P3. cbn [km log] in P1.
  split; [|split; [lia|lia]].
  unfold loaded. rewrite P1. split; [reflexivity|exact Hi].
Qed.

(** With two keys or more, every iteration rotates, and the loop runs
    dry. *)
Lemma outer_always_trigger_many (maxAttempts left attempt : nat)
    (w : World) :
  (2 <= length (configuredKeys st))%nat ->
  loaded st w ->
  exists w',
    executeWithKeyRotation_loop st operation maxAttempts left attempt w
    = (Throw loopEndedError, w') /\
    outerAttempts (trace w') = (outerAttempts (trace w) + left)%nat /\
    rotations (trace w') = (rotations (trace w) + left)%nat.
Proof.
  intros HN. revert attempt w.
  induction left as [|left IH]; intros attempt w Hw.
  - exists w. simpl. unfold throw. repeat split; lia.
  - assert (Hne : configuredKeys st <> []).
    { destruct (configuredKeys st); [simpl in HN; lia|discriminate]. }
    destruct (attempt_always_trigger w Hw Hne)
      as (e' & w2 & Hrun & Hrot & Hw2 & Ha & Hr).
    assert (Hk : (1 < length (keys (km w2)))%nat).
    { destruct Hw2 as [-> _]. lia. }
    rewrite (outer_rotate st operation maxAttempts left attempt w w2 e'
               Hrun Hrot Hk).
    destruct (IH (S attempt) (rotated w2) (rotated_loaded st w2 Hw2))
      as (w' & Hloop & Ha' & Hr').
    exists w'. split; [exact Hloop|].
    unfold rotated, outerAttempts, rotations in *.
    rewrite !filter_log in Ha', Hr'. simpl in Ha', Hr'.
    split; lia.
Qed.

(** With one key, the single iteration ends the call. *)
Lemma outer_always_trigger_one (w : World) :
  length (configuredKeys st) = 1%nat ->
  loaded st w ->
  exists e' w',
    isRotationTrigger e' = true /\
    executeWithKeyRotation_loop st operation 1 1 0 w
    = (Throw (exhaustedError (errorMessageLower e')), w') /\
    outerAttempts (trace w') = S (outerAttempts (trace w)) /\
    rotations (trace w') = rotations (trace w).
Proof.
  intros HN Hw.
  assert (Hne : configuredKeys st <> []).
  { destruct (configuredKeys st); [simpl in HN; lia|discriminate]. }
  destruct (attempt_always_trigger w Hw Hne)
    as (e' & w2 & Hrun & Hrot & Hw2 & Ha & Hr).
  assert (Hno : isRotationTrigger e' && (1 <? length (keys (km w2)))%nat
                = false).
  { destruct Hw2 as [-> _]. rewrite HN. apply andb_false_r. }
  exists e', w2. split; [exact Hrot|].
  rewrite (outer_propagate st operation 1 0 0 w w2 e' Hrun Hno).
  rewrite Hrot. simpl. auto.
Qed.

End AlwaysRotationTrigger.

(** ** Failures that are retried until the budget is spent *)

Section RetriedFailures.

Variable request : Request.
Variable client : Client.
(** Every failure is of one kind: a rotation trigger ([true]) or a
    transient failure ([false]); none is a hard quota zero. *)
Variable shouldRotate : bool.
Hypothesis always_fails :
  forall n, exists e,
    backend (apiKey client) request n = inr e /\
    isRotationTrigger e = shouldRotate /\
    isHardQuotaZero e = false.

Let call : Event := ECall (apiKey client) (req_model request).

Lemma inner_budget_spent (left attempt : nat) (w : World) :
  (length (keys (km w)) <= 1)%nat \/ shouldRotate = false ->
  (1 <= left)%nat -> (attempt + left = MAX_RETRIES + 1)%nat ->
  exists e w',
    backend (apiKey client) request (calls w + left - 1) = inr e /\
    withRateLimitHandling_loop (generateContent client request)
      left attempt w
    = (Throw (if shouldRotate then suspendedError e else e), w') /\
    trace w'
    = trace w ++ backoffLog call shouldRotate attempt (rng w) (left - 1) /\
    km w' = km w /\
    rng w' = (rng w + (left - 1))%nat /\
    calls w' = (calls w + left)%nat.
Proof.
  revert attempt w. induction left as [|left IH];
    intros attempt w Hpool Hl Hsum; [lia|].
  destruct (always_fails (calls w)) as (e & Hb & Hrot & Hq).
  assert (Hcall : generateContent client request w
                  = (Throw e, called (apiKey client) (req_model request) w)).
  { rewrite called_generateContent. now rewrite Hb. }
  set (w1 := called (apiKey client) (req_model request) w) in *.
  assert (Hno : isRotationTrigger e && (1 <? length (keys (km w1)))%nat
                = false).
  { rewrite Hrot. destruct Hpool as [Hp| ->]; [|reflexivity].
    replace (1 <? length (keys (km w1)))%nat with false;
      [apply andb_false_r|].
    symmetry. apply Nat.ltb_ge. exact Hp. }
  destruct (Nat.eq_dec attempt MAX_RETRIES) as [Ha|Ha].
  - assert (left = 0%nat) by lia. subst left attempt.
    exists e, w1. split.
    { replace (calls w + 1 - 1)%nat with (calls w) by lia. exact Hb. }
    rewrite (inner_last_attempt _ _ _ _ _ Hcall Hq Hno), Hrot.
    repeat split; simpl; lia.
  - rewrite (inner_retry _ _ _ _ _ _ Hcall Hq Hno Ha), Hrot.
    match goal with
    | |- context [withRateLimitHandling_loop _ left (S attempt) ?w2] =>
        destruct (IH (S attempt) w2) as (e' & w' & Hb' & Hrun & Ht & Hk & Hr & Hc);
        [exact Hpool | lia | lia |]
    end.
    exists e', w'. split.
    { rewrite <- Hb'. f_equal. simpl. lia. }
    split; [exact Hrun|].
    rewrite Ht, Hk, Hr, Hc. simpl.
    destruct left as [|left']; [lia|].
    replace (S left' - 0)%nat with (S left') by lia.
    replace (S left' - 1)%nat with left' by lia.
    simpl. rewrite <- !app_assoc. simpl.
    repeat split; lia.
Qed.

End RetriedFailures.

(** ** Waits *)

Lemma jitter_bounds (r bound : Q) :
  in_unit_interval r -> (0 < bound)%Q ->
  (0 <= r * bound)%Q /\ (r * bound < bound)%Q.
Proof.
  intros [H0 H1] Hb. split.
  - apply Qmult_le_0_compat; [exact H0|apply Qlt_le_weak, Hb].
  - setoid_replace bound with (1 * bound)%Q at 2 by ring.
    apply Qmult_lt_compat_r; assumption.
Qed.


(** ** The executor *)

Lemma single_key_selected (st : Storage) (w : World) (k : string) :
  configuredKeys st = [k] ->
  currentKey (km (selected st w)) = Some k /\
  currentIndex (km (selected st w)) = 0%nat.
Proof.
  intros Hk. unfold currentKey, selected. simpl. rewrite Hk. simpl.
  destruct (currentIndex (km w)) as [|i]; simpl; auto.
Qed.

(** C3. With [N >= 1] configured keys, [maxAttempts] is [max(1, N)]; and
    if every network call fails with a rotation trigger, the call fails
    after building a client exactly [N] times, once per outer attempt. *)
Theorem rotation_trigger_everywhere_makes_N_attempts
    (st : Storage) (request : Request) (modelName : string) (w : World) :
  (1 <= length (configuredKeys st))%nat ->
  (forall key n, exists e,
      backend key request n = inr e /\ isRotationTrigger e = true) ->
  maxAttemptsOf (km (exec (loadKeys st) w))
  = Nat.max 1 (length (configuredKeys st)) /\
  exists e w',
    executeWithKeyRotation st (requestOp request) modelName w
    = (Throw e, w') /\
    outerAttempts (trace w')
    = (outerAttempts (trace w) + length (configuredKeys st))%nat.
Proof.
  intros HN Hfail.
  assert (Hne : configuredKeys st <> []).
  { destruct (configuredKeys st); [simpl in HN; lia|discriminate]. }
  assert (Hmax : maxAttemptsOf (km (exec (loadKeys st) w))
                 = length (configuredKeys st)).
  { rewrite maxAttemptsOf_max, loadKeys_keys. lia. }
  split; [rewrite Hmax; lia|].
  rewrite executeWithKeyRotation_unfold, Hmax.
  pose proof (loadKeys_loaded st w Hne) as Hw0.
  destruct (loadKeys_trace_calls st w) as [Htr _].
  destruct (Nat.eq_dec (length (configuredKeys st)) 1) as [H1|H1].
  - rewrite H1.
    destruct (outer_always_trigger_one st request Hfail _ H1 Hw0)
      as (e' & w' & _ & Hrun & Ha & _).
    exists (exhaustedError (errorMessageLower e')), w'.
    split; [exact Hrun|]. rewrite Ha, Htr. lia.
  - destruct (outer_always_trigger_many st request Hfail
                (length (configuredKeys st)) (length (configuredKeys st)) 0
                (exec (loadKeys st) w)) as (w' & Hrun & Ha & _);
      [lia|exact Hw0|].
    exists loopEndedError, w'. split; [exact Hrun|]. now rewrite Ha, Htr.
Qed.

(** C4. One configured key, every call failing with a rotation trigger
    (that is not a hard quota zero): the inner loop makes its 5 calls,
    waits [8000 + jitter] with [0 <= jitter < 4000] between them, never
    rotates and leaves [currentIndex] alone; only then the call fails. *)
Theorem single_key_spends_inner_budget
    (st : Storage) (request : Request) (modelName : string) (w : World)
    (k : string) :
  configuredKeys st = [k] ->
  (forall n, in_unit_interval (rand n)) ->
  (forall n, exists e,
      backend (Some k) request n = inr e /\
      isRotationTrigger e = true /\ isHardQuotaZero e = false) ->
  let w0 := exec (loadKeys st) w in
  let c := rng w0 in
  let call := ECall (Some k) (req_model request) in
  exists e w',
    backend (Some k) request (calls w + 4) = inr e /\
    executeWithKeyRotation st (requestOp request) modelName w
    = (Throw (exhaustedError (errorMessageLower (suspendedError e))), w') /\
    trace w'
    = trace w ++
      [EClient (Some k);
       call; EDelay (8000 + rand c * 4000);
       call; EDelay (8000 + rand (S c) * 4000);
       call; EDelay (8000 + rand (S (S c)) * 4000);
       call; EDelay (8000 + rand (S (S (S c))) * 4000);
       call] /\
    (forall i, (0 <= rand i * 4000)%Q /\ (rand i * 4000 < 4000)%Q) /\
    km w' = km w0 /\
    currentIndex (km w') = currentIndex (km w0) /\
    rotations (trace w') = rotations (trace w) /\
    networkCalls (trace w') = (networkCalls (trace w) + MAX_RETRIES)%nat.
Proof.
  intros Hk Hrand Hfail w0 c call.
  assert (Hne : configuredKeys st <> []) by (rewrite Hk; discriminate).
  pose proof (loadKeys_loaded st w Hne) as Hw0. fold w0 in Hw0.
  destruct (loadKeys_trace_calls st w) as [Htr Hcalls].
  fold w0 in Htr, Hcalls.
  destruct (single_key_selected st w0 k Hk) as [Hkey _].
  assert (Hmax : maxAttemptsOf (km w0) = 1%nat).
  { rewrite maxAttemptsOf_max. destruct Hw0 as [-> _]. now rewrite Hk. }
  set (w1 := log (EClient (Some k)) (selected st w0)).
  destruct (inner_budget_spent request {| apiKey := Some k |} true Hfail
              MAX_RETRIES 1 w1) as (e & w2 & Hb & Hrun & Ht & Hkm & Hr & Hc).
  { left. simpl. now rewrite Hk. }
  { unfold MAX_RETRIES; lia. }
  { reflexivity. }
  assert (Hbody : attemptBody st (requestOp request) w0
                  = (Throw (suspendedError e), w2)).
  { rewrite (attemptBody_initialized st _ w0 (proj2 Hw0) Hne).
    rewrite Hkey. exact Hrun. }
  assert (Hno : isRotationTrigger (suspendedError e)
                && (1 <? length (keys (km w2)))%nat = false).
  { rewrite Hkm. change (keys (km w1)) with (configuredKeys st).
    rewrite Hk. apply andb_false_r. }
  assert (Hsel : km (selected st w0) = km w0).
  { assert (E1 := loadKeys_no_draw st w0 (or_introl (proj2 Hw0))).
    rewrite (loadKeys_settled st w0) in E1.
    - fold (selected st w0) in E1. now inversion E1.
    - exact (proj1 Hw0).
    - left. exact (proj2 Hw0).
    - apply loadKeys_index_in_bounds, Hrand. }
  exists e, w2. split.
  { rewrite <- Hb. f_equal. simpl. unfold MAX_RETRIES. lia. }
  split.
  { rewrite executeWithKeyRotation_unfold. fold w0. rewrite Hmax.
    rewrite (outer_propagate st _ 1 0 0 w0 w2 _ Hbody Hno).
    unfold suspendedError at 1.
    rewrite suspended_error_is_rotationTrigger. reflexivity. }
  split.
  { rewrite Ht. unfold w1. simpl. rewrite Htr, <- app_assoc. reflexivity. }
  split.
  { intros i. apply jitter_bounds; [apply Hrand|reflexivity]. }
  split; [rewrite Hkm; exact Hsel|].
  split.
  { rewrite Hkm. change (km w1) with (km (selected st w0)).
    now rewrite Hsel. }
  unfold rotations, networkCalls. rewrite Ht. unfold w1. simpl.
  rewrite Htr, !filter_app, !length_app. simpl. unfold MAX_RETRIES.
  split; lia.
Qed.




Lemma attemptBody_empty (st : Storage) (operation : Client -> M T)
    (w : World) :
  configuredKeys st = [] ->
  attemptBody st operation w = (Throw noKeyError, selected st w).
Proof.
  intros He. unfold attemptBody, bind.
  now rewrite (getAiClient_empty st w He).
Qed.

Lemma selected_empty_idem (st : Storage) (w : World) :
  configuredKeys st = [] -> selected st (selected st w) = selected st w.
Proof.
  intros He. unfold selected, with_km, clampIndex. simpl. now rewrite He.
Qed.

(** C1, as the code has it. A hard-quota-zero failure ends the inner
    retry loop where it occurs, whatever budget is left: one call, no
    wait. With one configured key that ends the whole logical call, with
    no rotation. With two keys or more the outer loop reads the error as a
    rotation trigger: it advances the index, waits 10000 ms and goes on
    with the next iteration. *)
Theorem hardQuotaZero_first_occurrence
    (st : Storage) (request : Request) (modelName : string) (w : World)
    (e : JsError) :
  configuredKeys st <> [] ->
  (forall key, backend key request (calls w) = inr e) ->
  isHardQuotaZero e = true ->
  let N := length (configuredKeys st) in
  let w0 := exec (loadKeys st) w in
  let key := currentKey (km (selected st w0)) in
  let w1 := log (EClient key) (selected st w0) in
  let w2 := called key (req_model request) w1 in
  (forall left attempt,
      withRateLimitHandling_loop
        (generateContent {| apiKey := key |} request) (S left) attempt w1
      = (Throw (hardQuotaError e), w2)) /\
  (N = 1%nat ->
   executeWithKeyRotation st (requestOp request) modelName w
   = (Throw (exhaustedError (errorMessageLower (hardQuotaError e))), w2)) /\
  ((2 <= N)%nat ->
   executeWithKeyRotation st (requestOp request) modelName w
   = executeWithKeyRotation_loop st (requestOp request) N (N - 1) 1
       (rotated w2)) /\
  trace w2 = trace w ++ [EClient key; ECall key (req_model request)] /\
  trace (rotated w2)
  = trace w ++ [EClient key; ECall key (req_model request);
                ERotate; EDelay 10000] /\
  currentIndex (km (rotated w2))
  = (currentIndex (km (selected st w0)) + 1) mod N.
Proof.
  intros Hne Hfail Hq N w0 key w1 w2.
  pose proof (loadKeys_loaded st w Hne) as Hw0. fold w0 in Hw0.
  destruct (loadKeys_trace_calls st w) as [Htr Hcalls].
  fold w0 in Htr, Hcalls.
  assert (Hcall : generateContent {| apiKey := key |} request w1
                  = (Throw e, w2)).
  { rewrite called_generateContent. cbn [apiKey].
    replace (calls w1) with (calls w) by (symmetry; exact Hcalls).
    now rewrite Hfail. }
  assert (Hinner : forall left attempt,
             withRateLimitHandling_loop
               (generateContent {| apiKey := key |} request) (S left)
               attempt w1 = (Throw (hardQuotaError e), w2)).
  { intros left attempt.
    apply (inner_hardQuotaZero _ left attempt w1 w2 e Hcall Hq). }
  assert (Hbody : attemptBody st (requestOp request) w0
                  = (Throw (hardQuotaError e), w2)).
  { rewrite (attemptBody_initialized st _ w0 (proj2 Hw0) Hne).
    apply Hinner. }
  assert (Hmax : maxAttemptsOf (km w0) = N).
  { rewrite maxAttemptsOf_max. destruct Hw0 as [-> _].
    unfold N. destruct (configuredKeys st); [congruence|simpl; lia]. }
  assert (Hrot : isRotationTrigger (hardQuotaError e) = true)
    by apply hardQuota_error_is_rotationTrigger.
  assert (Hlen : length (keys (km w2)) = N) by reflexivity.
  split; [exact Hinner|]. split; [|split; [|split; [|split]]].
  - intros HN. rewrite executeWithKeyRotation_unfold. fold w0.
    rewrite Hmax, HN.
    rewrite (outer_propagate st _ 1 0 0 w0 w2 _ Hbody).
    + now rewrite Hrot.
    + rewrite Hlen, HN. apply andb_false_r.
  - intros HN. rewrite executeWithKeyRotation_unfold. fold w0.
    rewrite Hmax.
    destruct N as [|N']; [lia|]. cbn [Nat.sub]. rewrite Nat.sub_0_r.
    apply (outer_rotate st _ (S N') N' 0 w0 w2 _ Hbody Hrot).
    rewrite Hlen. lia.
  - unfold w2, w1. simpl. rewrite Htr, <- app_assoc. reflexivity.
  - unfold rotated, w2, w1. simpl. rewrite Htr, <- !app_assoc. reflexivity.
  - reflexivity.
Qed.

(** C6. With no key configured, [getCurrentKey] throws the error that
    says that no API key was found, and [executeWithKeyRotation] passes
    that very error on, for any operation, without a network call (the
    counter of calls and the log are as before). *)
Theorem empty_pool_is_configuration_error (st : Storage) (w : World) :
  configuredKeys st = [] ->
  getCurrentKey st w = (Throw noKeyError, selected st w) /\
  (exists m, noKeyError = ErrorObj m /\
             includes "API key not found" m = true) /\
  forall (operation : Client -> M T) (modelName : string),
    executeWithKeyRotation st operation modelName w
    = (Throw noKeyError, selected st w) /\
    calls (selected st w) = calls w /\
    trace (selected st w) = trace w /\
    networkCalls (trace (selected st w)) = networkCalls (trace w).
Proof.
  intros He. split; [|split].
  - unfold getCurrentKey, bind.
    rewrite (loadKeys_no_draw st w (or_intror He)). unfold getKM.
    fold (selected st w). simpl. now rewrite He.
  - eexists. split; reflexivity.
  - intros operation modelName. split; [|now repeat split].
    rewrite executeWithKeyRotation_unfold. unfold exec.
    rewrite (loadKeys_no_draw st w (or_intror He)). cbn [snd].
    fold (selected st w).
    replace (maxAttemptsOf (km (selected st w))) with 1%nat
      by (unfold maxAttemptsOf; simpl; now rewrite He).
    rewrite (outer_propagate st operation 1 0 0 (selected st w)
               (selected st w) noKeyError).
    + reflexivity.
    + rewrite attemptBody_empty by exact He.
      now rewrite selected_empty_idem.
    + reflexivity.
Qed.

(** C8. When the call for 'gemini-2.5-flash' ends in an error that
    [callModel] reads as quota exhaustion, [callModel] is one more run of
    the executor, for 'gemini-2.0-flash', from the world the failed run
    left: its result, success or failure, is the result of [callModel].
    For any other 'gemini-' model the error of the executor is passed on
    unchanged. *)
Theorem flash_quota_failure_falls_back_once
    (st : Storage) (systemInstruction userPrompt : string)
    (config : CallConfig) (w w1 : World) (e : JsError) :
  let primary :=
    requestOp (buildRequest "gemini-2.5-flash" systemInstruction userPrompt
                 config) in
  let fallback :=
    requestOp (buildRequest "gemini-2.0-flash" systemInstruction userPrompt
                 config) in
  executeWithKeyRotation st primary "gemini-2.5-flash" w = (Throw e, w1) ->
  isQuotaExhausted e = true ->
  callModel st "gemini-2.5-flash" systemInstruction userPrompt config w
  = executeWithKeyRotation st fallback "gemini-2.0-flash" w1 /\
  (forall r w2,
      executeWithKeyRotation st fallback "gemini-2.0-flash" w1
      = (Return r, w2) ->
      callModel st "gemini-2.5-flash" systemInstruction userPrompt config w
      = (Return r, w2)) /\
  (forall model e' w',
      model <> "gemini-2.5-flash" ->
      startsWith "gemini-" model = true ->
      executeWithKeyRotation st
        (requestOp (buildRequest model systemInstruction userPrompt config))
        model w = (Throw e', w') ->
      callModel st model systemInstruction userPrompt config w
      = (Throw e', w')).
Proof.
  intros primary fallback Hrun Hq.
  assert (E : callModel st "gemini-2.5-flash" systemInstruction userPrompt
                config w
              = executeWithKeyRotation st fallback "gemini-2.0-flash" w1).
  { unfold callModel. cbn [startsWith Ascii.eqb Bool.eqb andb].
    unfold try_catch. fold (requestOp (buildRequest "gemini-2.5-flash"
                              systemInstruction userPrompt config)).
    fold primary. rewrite Hrun, Hq. reflexivity. }
  split; [exact E|]. split.
  - intros r w2 H. now rewrite E.
  - intros model e' w' Hm Hs H. unfold callModel. rewrite Hs.
    unfold try_catch.
    fold (requestOp (buildRequest model systemInstruction userPrompt config)).
    rewrite H.
    replace (String.eqb model "gemini-2.5-flash") with false
      by (symmetry; now apply String.eqb_neq).
    now rewrite andb_false_r.
Qed.

(** C10. A model name that does not start with 'gemini-' makes
    [callModel] throw 'Unsupported model: <name>' in the world it was
    called in: nothing is logged, drawn, called or rotated. *)
Theorem unsupported_model_fails_at_once
    (st : Storage) (model systemInstruction userPrompt : string)
    (config : CallConfig) (w : World) :
  startsWith "gemini-" model = false ->
  callModel st model systemInstruction userPrompt config w
  = (Throw (ErrorObj ("Unsupported model: " ++ model)), w).
Proof.
  intros H. unfold callModel. now rewrite H.
Qed.

(** * Further properties of the code *)

(** ** Substrings *)

Lemma string_app_assoc (a b c : string) :
  ((a ++ b) ++ c)%string = (a ++ b ++ c)%string.
Proof.
  induction a as [|x a IH]; simpl; [reflexivity|]. now rewrite IH.
Qed.

Lemma startsWith_iff (p s : string) :
  startsWith p s = true <-> exists b, s = (p ++ b)%string.
Proof.
  revert s. induction p as [|x p IH]; intros s; simpl.
  - split; [intros _; now exists s|reflexivity].
  - destruct s as [|y s].
    + split; [discriminate|intros [b H]; discriminate H].
    + rewrite andb_true_iff, Ascii.eqb_eq, IH. split.
      * intros [-> [b ->]]. now exists b.
      * intros [b H]. inversion H; subst. split; [reflexivity|now exists b].
Qed.

Lemma includes_iff (p s : string) :
  includes p s = true <-> exists a b, s = (a ++ p ++ b)%string.
Proof.
  split.
  - induction s as [|y s IH]; intros H; rewrite includes_unfold in H;
      apply orb_true_iff in H as [H|H].
    + apply startsWith_iff in H as [b ->]. now exists EmptyString, b.
    + discriminate H.
    + apply startsWith_iff in H as [b ->]. now exists EmptyString, b.
    + destruct (IH H) as (a & b & ->). now exists (String y a), b.
  - intros (a & b & ->). apply includes_self_app.
Qed.

Lemma includes_trans (p q s : string) :
  includes p q = true -> includes q s = true -> includes p s = true.
Proof.
  intros Hpq Hqs. apply includes_iff in Hpq as (a & b & ->).
  apply includes_iff in Hqs as (c & d & ->). apply includes_iff.
  exists (c ++ a)%string, (b ++ d)%string.
  now rewrite !string_app_assoc.
Qed.

(** ** How the three classifications relate *)

(** Every error that the inner loop takes for a hard quota zero is a
    quota exhaustion for [callModel], and every quota exhaustion is a
    rotation trigger for the executor. A thrown value that is not an
    [Error] is never a hard quota zero. *)
Theorem classification_inclusions (error : JsError) :
  (isHardQuotaZero error = true -> isQuotaExhausted error = true) /\
  (isQuotaExhausted error = true -> isRotationTrigger error = true) /\
  (forall rendering, isHardQuotaZero (Thrown rendering) = false).
Proof.
  split; [|split].
  - unfold isHardQuotaZero, isQuotaExhausted. destruct error as [m|s];
      simpl; [|discriminate].
    intros H. apply orb_true_iff in H as [H|H].
    + rewrite (includes_trans "limit" "limit: 0" _ eq_refl H).
      now rewrite !orb_true_r.
    + rewrite (includes_trans "quota" "quota exceeded for metric" _
                 eq_refl H).
      now rewrite !orb_true_r.
  - unfold isQuotaExhausted, isRotationTrigger.
    destruct (includes "exhausted" (errorTextLower error));
      destruct (includes "quota" (errorTextLower error));
      destruct (includes "limit" (errorTextLower error));
      destruct (includes "429" (errorTextLower error));
      simpl; try discriminate; intros _; now rewrite ?orb_true_r.
  - reflexivity.
Qed.


(** ** Bounds that hold whatever the backend answers *)

Lemma attemptBody_cases (st : Storage) (operation : Client -> M T)
    (w : World) :
  attemptBody st operation w
  = if (length (configuredKeys st) =? 0)%nat
    then (Throw noKeyError, exec (loadKeys st) w)
    else withRateLimitHandling
           (operation {| apiKey := currentKey (km (exec (loadKeys st) w)) |})
           (log (EClient (currentKey (km (exec (loadKeys st) w))))
              (exec (loadKeys st) w)).
Proof.
  unfold attemptBody, getAiClient, getCurrentKey, bind.
  rewrite (loadKeys_returns st w). unfold getKM, currentKey.
  rewrite (loadKeys_keys st w).
  destruct (length (configuredKeys st) =? 0)%nat; reflexivity.
Qed.

Lemma inner_counts (client : Client) (request : Request)
    (left attempt : nat) (w : World) (o : Outcome T) (w' : World) :
  (attempt + left = MAX_RETRIES + 1)%nat ->
  withRateLimitHandling_loop (generateContent client request) left attempt w
  = (o, w') ->
  (networkCalls (trace w') <= networkCalls (trace w) + left)%nat /\
  (waits (trace w') <= waits (trace w) + (left - 1))%nat /\
  (calls w' + networkCalls (trace w)
   = calls w + networkCalls (trace w'))%nat.
Proof.
  revert attempt w. induction left as [|left IH]; intros attempt w Hsum H.
  - simpl in H. unfold throw in H. inversion H; subst. lia.
  - cbn [withRateLimitHandling_loop] in H. unfold try_catch in H.
    rewrite called_generateContent in H.
    set (w1 := called (apiKey client) (req_model request) w) in *.
    assert (H1 : networkCalls (trace w1) = S (networkCalls (trace w)) /\
                 waits (trace w1) = waits (trace w) /\
                 calls w1 = S (calls w)).
    { unfold w1, networkCalls, waits. rewrite !filter_called. simpl.
      repeat split; lia. }
    destruct H1 as (K1 & K2 & K3).
    destruct (backend (apiKey client) request (calls w)) as [r|e];
      [inversion H; subst; lia|].
    destruct (includes "limit: 0" (errorMessageLower e)
              || includes "quota exceeded for metric" (errorMessageLower e));
      [inversion H; subst; lia|].
    unfold bind at 1 in H. unfold getKM in H.
    destruct (isRotationTrigger e && (1 <? length (keys (km w1)))%nat);
      [inversion H; subst; lia|].
    destruct (attempt =? MAX_RETRIES)%nat eqn:Hm.
    { destruct (isRotationTrigger e); inversion H; subst; lia. }
    apply Nat.eqb_neq in Hm. unfold MAX_RETRIES in *.
    unfold bind, Math_random, delay, emit in H.
    apply IH in H; [|lia]. destruct H as (I1 & I2 & I3).
    subst w1. unfold networkCalls, waits, log, drew, called in *.
    cbn [calls trace] in *.
    rewrite ?filter_app, ?length_app in *. simpl in *.
    lia.
Qed.

Lemma wait_plus_jitter (base x lim : Q) :
  (2000 <= base)%Q -> (base + lim <= 16500)%Q ->
  (0 <= x)%Q -> (x < lim)%Q -> waitInRange (base + x).
Proof.
  intros Hb Hl H0 H1. split.
  - apply Qle_trans with (base + 0)%Q.
    + rewrite Qplus_0_r. exact Hb.
    + apply Qplus_le_r. exact H0.
  - apply Qlt_le_weak. apply Qlt_le_trans with (base + lim)%Q; [|exact Hl].
    apply Qplus_lt_r. exact H1.
Qed.

Lemma backoffTime_in_range (shouldRotate : bool) (attempt : nat) (r : Q) :
  in_unit_interval r -> (1 <= attempt <= 4)%nat ->
  waitInRange (backoffTime shouldRotate attempt r).
Proof.
  intros Hr Ha. unfold backoffTime. destruct shouldRotate.
  - destruct (jitter_bounds r 4000 Hr eq_refl) as [J0 J1].
    apply (wait_plus_jitter 8000 _ 4000); [discriminate|discriminate| |];
      assumption.
  - destruct (jitter_bounds r 500 Hr eq_refl) as [J0 J1].
    assert (C : (attempt = 1 \/ attempt = 2 \/ attempt = 3 \/ attempt = 4)%nat)
      by lia.
    destruct C as [-> | [-> | [-> | ->]]];
      (apply (wait_plus_jitter _ _ 500); [discriminate|discriminate| |];
       assumption).
Qed.

Lemma delaysOf_app (a b : list Event) :
  delaysOf (a ++ b) = delaysOf a ++ delaysOf b.
Proof. unfold delaysOf. apply flat_map_app. Qed.

Lemma clientsOf_app (a b : list Event) :
  clientsOf (a ++ b) = clientsOf a ++ clientsOf b.
Proof. unfold clientsOf. apply flat_map_app. Qed.

Lemma inner_delays (client : Client) (request : Request)
    (left attempt : nat) (w : World) (o : Outcome T) (w' : World) :
  (forall n, in_unit_interval (rand n)) ->
  (1 <= attempt)%nat -> (attempt + left <= MAX_RETRIES + 1)%nat ->
  withRateLimitHandling_loop (generateContent client request) left attempt w
  = (o, w') ->
  exists ds, delaysOf (trace w') = delaysOf (trace w) ++ ds /\
             Forall waitInRange ds /\
             clientsOf (trace w') = clientsOf (trace w).
Proof.
  intros Hr. revert attempt w. induction left as [|left IH];
    intros attempt w Ha Hsum H.
  - simpl in H. unfold throw in H. inversion H; subst.
    exists []. rewrite app_nil_r. auto.
  - cbn [withRateLimitHandling_loop] in H. unfold try_catch in H.
    rewrite called_generateContent in H.
    set (w1 := called (apiKey client) (req_model request) w) in *.
    assert (H1 : exists ds, delaysOf (trace w1) = delaysOf (trace w) ++ ds /\
                            Forall waitInRange ds /\
                            clientsOf (trace w1) = clientsOf (trace w)).
    { exists []. unfold w1, called. cbn [trace].
      rewrite delaysOf_app, clientsOf_app. simpl. rewrite !app_nil_r. auto. }
    destruct (backend (apiKey client) request (calls w)) as [r|e];
      [inversion H; subst; exact H1|].
    destruct (includes "limit: 0" (errorMessageLower e)
              || includes "quota exceeded for metric" (errorMessageLower e));
      [inversion H; subst; exact H1|].
    unfold bind at 1 in H. unfold getKM in H.
    destruct (isRotationTrigger e && (1 <? length (keys (km w1)))%nat);
      [inversion H; subst; exact H1|].
    destruct (attempt =? MAX_RETRIES)%nat eqn:Hm.
    { destruct (isRotationTrigger e); inversion H; subst; exact H1. }
    apply Nat.eqb_neq in Hm. unfold MAX_RETRIES in *.
    unfold bind, Math_random, delay, emit in H.
    apply IH in H; [|lia|lia].
    destruct H as (ds & D1 & D2 & D3).
    cbn [trace log] in D1, D3. unfold w1, called in D1, D3.
    cbn [trace] in D1, D3.
    rewrite !delaysOf_app in D1. rewrite !clientsOf_app in D3.
    simpl in D1, D3. rewrite !app_nil_r in D1. rewrite !app_nil_r in D3.
    eexists (_ :: ds). split; [|split].
    + rewrite D1. rewrite <- app_assoc. reflexivity.
    + constructor; [|exact D2].
      apply backoffTime_in_range; [apply Hr|lia].
    + exact D3.
Qed.


Lemma attemptBody_counts (st : Storage) (request : Request)
    (w : World) (o : Outcome T) (w2 : World) :
  attemptBody st (requestOp request) w = (o, w2) ->
  (outerAttempts (trace w2) <= outerAttempts (trace w) + 1)%nat /\
  (networkCalls (trace w2) <= networkCalls (trace w) + MAX_RETRIES)%nat /\
  rotations (trace w2) = rotations (trace w) /\
  (waits (trace w2) <= waits (trace w) + (MAX_RETRIES - 1))%nat /\
  (calls w2 + networkCalls (trace w)
   = calls w + networkCalls (trace w2))%nat /\
  km w2 = km (exec (loadKeys st) w).
Proof.
  rewrite attemptBody_cases.
  destruct (loadKeys_trace_calls st w) as [Htr Hcalls].
  destruct (length (configuredKeys st) =? 0)%nat.
  - intros H. inversion H; subst. rewrite Htr, Hcalls.
    repeat split; lia.
  - unfold withRateLimitHandling, requestOp. intros H.
    destruct (inner_preserves _ _ _ _ _ _ _ H) as (P1 & P2 & P3).
    destruct (inner_counts _ _ MAX_RETRIES 1 _ _ _ eq_refl H)
      as (C1 & C2 & C3).
    unfold outerAttempts, rotations, networkCalls, waits in *.
    rewrite filter_log in P2, P3, C1, C2, C3. cbn [km log calls] in P1, C3.
    rewrite Htr in P2, P3, C1, C2, C3. rewrite Hcalls in C3.
    simpl in P2, P3, C1, C2, C3. unfold MAX_RETRIES in *.
    repeat split; try lia. exact P1.
Qed.

Lemma outer_counts (st : Storage) (request : Request)
    (maxAttempts left attempt : nat) (w : World) (o : Outcome T)
    (w' : World) :
  executeWithKeyRotation_loop st (requestOp request) maxAttempts left attempt w
  = (o, w') ->
  (outerAttempts (trace w') <= outerAttempts (trace w) + left)%nat /\
  (networkCalls (trace w') <= networkCalls (trace w) + left * MAX_RETRIES)%nat /\
  (rotations (trace w') <= rotations (trace w) + left)%nat /\
  (waits (trace w') <= waits (trace w) + left * MAX_RETRIES)%nat /\
  ((length (configuredKeys st) <= 1)%nat ->
   rotations (trace w') = rotations (trace w)) /\
  (calls w' + networkCalls (trace w)
   = calls w + networkCalls (trace w'))%nat.
Proof.
  revert attempt w. induction left as [|left IH]; intros attempt w H.
  - simpl in H. unfold throw in H. inversion H; subst. repeat split; lia.
  - destruct (attemptBody st (requestOp request) w) as [o1 w2] eqn:Hbody.
    destruct (attemptBody_counts st request w o1 w2 Hbody)
      as (A1 & A2 & A3 & A4 & A5 & A6).
    assert (Hkeys : keys (km w2) = configuredKeys st)
      by (rewrite A6; apply loadKeys_keys).
    unfold MAX_RETRIES in *.
    destruct o1 as [r|e].
    + rewrite (outer_success st _ maxAttempts left attempt w w2 r Hbody) in H.
      inversion H; subst. repeat split; lia.
    + destruct (isRotationTrigger e && (1 <? length (keys (km w2)))%nat)
        eqn:Hrot.
      * apply andb_true_iff in Hrot as [Hrot Hk]. apply Nat.ltb_lt in Hk.
        rewrite (outer_rotate st _ maxAttempts left attempt w w2 e Hbody
                   Hrot Hk) in H.
        apply IH in H. destruct H as (I1 & I2 & I3 & I4 & I5 & I6).
        unfold rotated, outerAttempts, networkCalls, rotations, waits in *.
        rewrite !filter_log in I1, I2, I3, I4, I6.
        cbn [calls log with_km] in I6. simpl in I1, I2, I3, I4, I6.
        rewrite Hkeys in Hk.
        repeat split; try lia.
      * rewrite (outer_propagate st _ maxAttempts left attempt w w2 e Hbody
                   Hrot) in H.
        inversion H; subst. repeat split; lia.
Qed.

(** The executor does a bounded amount of work, whatever the backend
    answers: with [maxAttempts = max(1, N)] for [N] configured keys, one
    run builds at most [maxAttempts] clients, makes at most
    [maxAttempts * MAX_RETRIES] network calls, rotates at most [maxAttempts]
    times and waits at most [maxAttempts * MAX_RETRIES] times; with at most
    one key it never rotates; and every network call is logged. *)
Theorem executor_work_is_bounded
    (st : Storage) (request : Request) (modelName : string) (w : World) :
  let w' := exec (executeWithKeyRotation st (requestOp request) modelName) w in
  let maxAttempts := Nat.max 1 (length (configuredKeys st)) in
  (outerAttempts (trace w') <= outerAttempts (trace w) + maxAttempts)%nat /\
  (networkCalls (trace w')
   <= networkCalls (trace w) + maxAttempts * MAX_RETRIES)%nat /\
  (rotations (trace w') <= rotations (trace w) + maxAttempts)%nat /\
  (waits (trace w') <= waits (trace w) + maxAttempts * MAX_RETRIES)%nat /\
  ((length (configuredKeys st) <= 1)%nat ->
   rotations (trace w') = rotations (trace w)) /\
  (calls w' - calls w
   = networkCalls (trace w') - networkCalls (trace w))%nat.
Proof.
  intros w' maxAttempts. unfold w', exec.
  rewrite executeWithKeyRotation_unfold.
  rewrite maxAttemptsOf_max, loadKeys_keys. fold maxAttempts.
  destruct (loadKeys_trace_calls st w) as [Htr Hcalls].
  destruct (executeWithKeyRotation_loop st (requestOp request) maxAttempts
              maxAttempts 0 (exec (loadKeys st) w)) as [o w2] eqn:Hrun.
  apply outer_counts in Hrun. rewrite Htr, Hcalls in Hrun. cbn [snd].
  destruct Hrun as (I1 & I2 & I3 & I4 & I5 & I6).
  repeat split; try assumption. lia.
Qed.


Section WithRandomInRange.

Hypothesis rand_in_range : forall n, in_unit_interval (rand n).

Lemma attemptBody_delays (st : Storage) (request : Request)
    (w : World) (o : Outcome T) (w2 : World) :
  attemptBody st (requestOp request) w = (o, w2) ->
  exists ds, delaysOf (trace w2) = delaysOf (trace w) ++ ds /\
             Forall waitInRange ds.
Proof.
  rewrite attemptBody_cases.
  destruct (loadKeys_trace_calls st w) as [Htr _].
  destruct (length (configuredKeys st) =? 0)%nat.
  - intros H. inversion H; subst. exists []. rewrite Htr, app_nil_r. auto.
  - unfold withRateLimitHandling, requestOp. intros H.
    apply inner_delays in H; [|exact rand_in_range|lia|unfold MAX_RETRIES; lia].
    destruct H as (ds & D1 & D2 & _). exists ds. split; [|exact D2].
    rewrite D1. unfold log. cbn [trace]. rewrite delaysOf_app, Htr.
    simpl. now rewrite app_nil_r.
Qed.

Lemma outer_delays (st : Storage) (request : Request)
    (maxAttempts left attempt : nat) (w : World) (o : Outcome T)
    (w' : World) :
  executeWithKeyRotation_loop st (requestOp request) maxAttempts left attempt w
  = (o, w') ->
  exists ds, delaysOf (trace w') = delaysOf (trace w) ++ ds /\
             Forall waitInRange ds.
Proof.
  revert attempt w. induction left as [|left IH]; intros attempt w H.
  - simpl in H. unfold throw in H. inversion H; subst.
    exists []. rewrite app_nil_r. auto.
  - destruct (attemptBody st (requestOp request) w) as [o1 w2] eqn:Hbody.
    destruct (attemptBody_delays st request w o1 w2 Hbody) as (ds & D1 & D2).
    destruct o1 as [r|e].
    + rewrite (outer_success st _ maxAttempts left attempt w w2 r Hbody) in H.
      inversion H; subst. now exists ds.
    + destruct (isRotationTrigger e && (1 <? length (keys (km w2)))%nat)
        eqn:Hrot.
      * apply andb_true_iff in Hrot as [Hrot Hk]. apply Nat.ltb_lt in Hk.
        rewrite (outer_rotate st _ maxAttempts left attempt w w2 e Hbody
                   Hrot Hk) in H.
        apply IH in H. destruct H as (ds' & E1 & E2).
        unfold rotated, log in E1. cbn [trace with_km] in E1.
        rewrite !delaysOf_app in E1. simpl in E1. rewrite app_nil_r in E1.
        exists (ds ++ 10000%Q :: ds'). split.
        -- rewrite E1, D1, <- !app_assoc. reflexivity.
        -- apply Forall_app. split; [exact D2|].
           constructor; [split; discriminate|exact E2].
      * rewrite (outer_propagate st _ maxAttempts left attempt w w2 e Hbody
                   Hrot) in H.
        inversion H; subst. now exists ds.
Qed.

Lemma outer_pool (st : Storage) (request : Request)
    (maxAttempts left attempt : nat) (w : World) (o : Outcome T)
    (w' : World) :
  keys (km w) = configuredKeys st -> indexInBounds (km w) ->
  executeWithKeyRotation_loop st (requestOp request) maxAttempts left attempt w
  = (o, w') ->
  keys (km w') = configuredKeys st /\ indexInBounds (km w') /\
  (initialized (km w) = true -> initialized (km w') = true).
Proof.
  revert attempt w. induction left as [|left IH]; intros attempt w Hk Hb H.
  - simpl in H. unfold throw in H. inversion H; subst. auto.
  - destruct (attemptBody st (requestOp request) w) as [o1 w2] eqn:Hbody.
    destruct (attemptBody_counts st request w o1 w2 Hbody)
      as (_ & _ & _ & _ & _ & A6).
    assert (P : keys (km w2) = configuredKeys st /\ indexInBounds (km w2) /\
                (initialized (km w) = true -> initialized (km w2) = true)).
    { rewrite A6. split; [apply loadKeys_keys|].
      split; [apply loadKeys_index_in_bounds, rand_in_range|].
      intros Hi. now apply loadKeys_initialized_after. }
    destruct o1 as [r|e].
    + rewrite (outer_success st _ maxAttempts left attempt w w2 r Hbody) in H.
      inversion H; subst. exact P.
    + destruct (isRotationTrigger e && (1 <? length (keys (km w2)))%nat)
        eqn:Hrot.
      * apply andb_true_iff in Hrot as [Hrot Hlen]. apply Nat.ltb_lt in Hlen.
        rewrite (outer_rotate st _ maxAttempts left attempt w w2 e Hbody
                   Hrot Hlen) in H.
        destruct P as (P1 & P2 & P3).
        apply IH in H.
        -- destruct H as (I1 & I2 & I3). split; [exact I1|].
           split; [exact I2|]. intros Hi. apply I3. cbn. now apply P3.
        -- exact P1.
        -- unfold indexInBounds. cbn. intros _.
           apply Nat.mod_upper_bound. lia.
      * rewrite (outer_propagate st _ maxAttempts left attempt w w2 e Hbody
                   Hrot) in H.
        inversion H; subst. exact P.
Qed.

(** Every wait of a run is at least 2000 ms and at most 16500 ms: the
    backoff of a rotation trigger is at most 8000 + 4000, that of a
    transient failure at attempt [k <= 4] at most 2^4 * 1000 + 500, and
    the cooldown after a rotation is 10000. The bounds are closed, so they
    also hold of the sums as floating-point arithmetic rounds them. *)
Theorem executor_waits_in_range
    (st : Storage) (request : Request) (modelName : string) (w : World) :
  let w' := exec (executeWithKeyRotation st (requestOp request) modelName) w in
  exists ds, delaysOf (trace w') = delaysOf (trace w) ++ ds /\
             Forall waitInRange ds.
Proof.
  intros w'. unfold w', exec. rewrite executeWithKeyRotation_unfold.
  destruct (loadKeys_trace_calls st w) as [Htr _].
  match goal with
  | |- context [snd ?run] => destruct run as [o w2] eqn:Hrun
  end.
  apply outer_delays in Hrun. rewrite Htr in Hrun. exact Hrun.
Qed.

(** The executor keeps the invariant of the pool: after a run, successful
    or not, the keys are those of the configuration, [currentIndex] is
    within bounds, and a manager that has keys is initialized. *)
Theorem executor_keeps_pool_invariant
    (st : Storage) (request : Request) (modelName : string) (w : World) :
  let w' := exec (executeWithKeyRotation st (requestOp request) modelName) w in
  keys (km w') = configuredKeys st /\
  indexInBounds (km w') /\
  (configuredKeys st <> [] -> initialized (km w') = true).
Proof.
  intros w'. unfold w', exec. rewrite executeWithKeyRotation_unfold.
  match goal with
  | |- context [snd ?run] => destruct run as [o w2] eqn:Hrun
  end.
  apply outer_pool in Hrun.
  - destruct Hrun as (I1 & I2 & I3). cbn [snd]. split; [exact I1|].
    split; [exact I2|]. intros Hne. apply I3.
    destruct (loadKeys_initialized_or_empty st w); [assumption|congruence].
  - apply loadKeys_keys.
  - apply loadKeys_index_in_bounds, rand_in_range.
Qed.

End WithRandomInRange.


(** ** Runs that succeed *)

Lemma clampIndex_in_bounds (k : KeyManagerState) :
  indexInBounds k -> clampIndex (keys k) k = k.
Proof.
  destruct k as [ks i ini]. unfold indexInBounds, clampIndex. simpl.
  intros H. destruct (0 <? length ks)%nat eqn:E; simpl; [|reflexivity].
  apply Nat.ltb_lt in E. specialize (H E).
  apply Nat.leb_gt in H. now rewrite H.
Qed.

(** The first call succeeds: the executor returns its response after one
    client and one network call, with no wait and no rotation. *)
Theorem first_call_success
    (st : Storage) (request : Request) (modelName : string) (w : World)
    (r : T) :
  let w0 := exec (loadKeys st) w in
  let key := currentKey (km (selected st w0)) in
  configuredKeys st <> [] ->
  backend key request (calls w) = inl r ->
  exists w',
    executeWithKeyRotation st (requestOp request) modelName w
    = (Return r, w') /\
    trace w' = trace w ++ [EClient key; ECall key (req_model request)] /\
    km w' = km (selected st w0) /\
    calls w' = S (calls w).
Proof.
  intros w0 key Hne Hok.
  pose proof (loadKeys_loaded st w Hne) as Hw0. fold w0 in Hw0.
  destruct (loadKeys_trace_calls st w) as [Htr Hcalls].
  fold w0 in Htr, Hcalls.
  set (w1 := log (EClient key) (selected st w0)).
  exists (called key (req_model request) w1).
  split; [|split; [|split]].
  - rewrite executeWithKeyRotation_unfold. fold w0.
    destruct (maxAttemptsOf (km w0)) as [|m] eqn:Hm.
    { rewrite maxAttemptsOf_max in Hm. lia. }
    apply outer_success.
    rewrite (attemptBody_initialized st _ w0 (proj2 Hw0) Hne).
    fold key. fold w1. unfold withRateLimitHandling, MAX_RETRIES.
    apply inner_success. unfold requestOp.
    rewrite called_generateContent. cbn [apiKey].
    replace (calls w1) with (calls w) by (symmetry; exact Hcalls).
    now rewrite Hok.
  - unfold w1. simpl. rewrite Htr, <- app_assoc. reflexivity.
  - reflexivity.
  - simpl. now rewrite Hcalls.
Qed.

(** Fail-over: with two keys or more, when the call with the current key
    fails with a rotation trigger and the call with the next key succeeds,
    the executor returns that response after exactly two outer attempts,
    with one rotation and the one 10000 ms cooldown between them; the
    second client is bound to the key after the first, cyclically. *)
Theorem failover_to_next_key
    (st : Storage) (request : Request) (modelName : string) (w : World)
    (e : JsError) (r : T) :
  let N := length (configuredKeys st) in
  let w0 := exec (loadKeys st) w in
  let i := currentIndex (km (selected st w0)) in
  let key1 := nth_error (configuredKeys st) i in
  let key2 := nth_error (configuredKeys st) ((i + 1) mod N) in
  (2 <= N)%nat ->
  backend key1 request (calls w) = inr e ->
  isRotationTrigger e = true ->
  backend key2 request (S (calls w)) = inl r ->
  exists w',
    executeWithKeyRotation st (requestOp request) modelName w
    = (Return r, w') /\
    trace w'
    = trace w ++ [EClient key1; ECall key1 (req_model request);
                  ERotate; EDelay 10000;
                  EClient key2; ECall key2 (req_model request)] /\
    currentIndex (km w') = (i + 1) mod N.
Proof.
  intros N w0 i key1 key2 HN Hfail Hrot Hok.
  assert (Hne : configuredKeys st <> []).
  { unfold N in HN. destruct (configuredKeys st); [simpl in HN; lia|].
    discriminate. }
  pose proof (loadKeys_loaded st w Hne) as Hw0. fold w0 in Hw0.
  destruct (loadKeys_trace_calls st w) as [Htr Hcalls].
  fold w0 in Htr, Hcalls.
  assert (Hkey1 : currentKey (km (selected st w0)) = key1) by reflexivity.
  set (w1 := log (EClient key1) (selected st w0)).
  set (w2 := called key1 (req_model request) w1).
  assert (Hcall : generateContent {| apiKey := key1 |} request w1
                  = (Throw e, w2)).
  { rewrite called_generateContent. cbn [apiKey].
    replace (calls w1) with (calls w) by (symmetry; exact Hcalls).
    now rewrite Hfail. }
  assert (Hlen : length (keys (km w2)) = N) by reflexivity.
  assert (Hbody : exists e', attemptBody st (requestOp request) w0
                             = (Throw e', w2) /\
                             isRotationTrigger e' = true).
  { rewrite (attemptBody_initialized st _ w0 (proj2 Hw0) Hne).
    rewrite Hkey1. fold w1. unfold withRateLimitHandling, MAX_RETRIES.
    destruct (isHardQuotaZero e) eqn:Hq.
    - eexists. split.
      + apply (inner_hardQuotaZero _ _ _ _ _ _ Hcall Hq).
      + apply hardQuota_error_is_rotationTrigger.
    - exists e. split; [|exact Hrot].
      apply (inner_rotation_with_backup _ _ _ _ _ _ Hcall Hq Hrot).
      rewrite Hlen. lia. }
  destruct Hbody as (e' & Hbody & Hrot').
  set (w3 := rotated w2).
  assert (Hi3 : currentIndex (km w3) = ((i + 1) mod N)%nat) by reflexivity.
  assert (Hb3 : indexInBounds (km w3)).
  { unfold indexInBounds. rewrite Hi3.
    change (length (keys (km w3))) with N. intros _.
    apply Nat.mod_upper_bound. lia. }
  assert (Hsel : selected st w3 = w3).
  { unfold selected.
    change (configuredKeys st) with (keys (km w3)).
    rewrite (clampIndex_in_bounds _ Hb3). now destruct w3. }
  assert (Hkey2 : currentKey (km (selected st w3)) = key2).
  { rewrite Hsel. reflexivity. }
  set (w4 := log (EClient key2) w3).
  exists (called key2 (req_model request) w4).
  split; [|split].
  - rewrite executeWithKeyRotation_unfold. fold w0.
    replace (maxAttemptsOf (km w0)) with N
      by (rewrite maxAttemptsOf_max; destruct Hw0 as [-> _]; fold N; lia).
    destruct N as [|[|N']] eqn:EN; [lia|lia|].
    rewrite (outer_rotate st _ _ _ 0 w0 w2 e' Hbody Hrot')
      by (rewrite Hlen; lia).
    fold w3. apply outer_success.
    rewrite (attemptBody_initialized st _ w3 (proj2 Hw0) Hne).
    rewrite Hkey2, Hsel. fold w4.
    unfold withRateLimitHandling, MAX_RETRIES.
    apply inner_success. unfold requestOp.
    rewrite called_generateContent. cbn [apiKey].
    replace (calls w4) with (S (calls w))
      by (simpl; now rewrite Hcalls).
    now rewrite Hok.
  - unfold w4, w3, rotated, w2, w1. simpl.
    rewrite Htr, <- !app_assoc. reflexivity.
  - reflexivity.
Qed.


(** ** Transient failures *)

Lemma inner_retried_prefix (client : Client) (request : Request)
    (shouldRotate : bool) (j left attempt : nat) (w : World) :
  (forall i, (i < j)%nat -> exists e,
      backend (apiKey client) request (calls w + i) = inr e /\
      isRotationTrigger e = shouldRotate /\ isHardQuotaZero e = false) ->
  (length (keys (km w)) <= 1)%nat \/ shouldRotate = false ->
  (attempt + j <= MAX_RETRIES)%nat -> (j <= left)%nat ->
  exists wj,
    withRateLimitHandling_loop (generateContent client request) left attempt w
    = withRateLimitHandling_loop (generateContent client request)
        (left - j) (attempt + j) wj /\
    km wj = km w /\ rng wj = (rng w + j)%nat /\
    calls wj = (calls w + j)%nat /\
    trace wj
    = trace w ++ retriedLog (ECall (apiKey client) (req_model request))
                   shouldRotate attempt (rng w) j.
Proof.
  revert left attempt w. induction j as [|j IH];
    intros left attempt w Hfail Hpool Ha Hl.
  - exists w. rewrite Nat.sub_0_r, !Nat.add_0_r, app_nil_r. auto.
  - destruct left as [|left]; [lia|].
    destruct (Hfail 0%nat) as (e & Hb & Hrot & Hq); [lia|].
    rewrite Nat.add_0_r in Hb.
    assert (Hcall : generateContent client request w
                    = (Throw e, called (apiKey client) (req_model request) w)).
    { rewrite called_generateContent. now rewrite Hb. }
    set (w1 := called (apiKey client) (req_model request) w) in *.
    assert (Hno : isRotationTrigger e && (1 <? length (keys (km w1)))%nat
                  = false).
    { rewrite Hrot. destruct Hpool as [Hp| ->]; [|reflexivity].
      replace (1 <? length (keys (km w1)))%nat with false;
        [apply andb_false_r|].
      symmetry. apply Nat.ltb_ge. exact Hp. }
    assert (Hne : attempt <> MAX_RETRIES) by lia.
    rewrite (inner_retry _ _ _ _ _ _ Hcall Hq Hno Hne), Hrot.
    match goal with
    | |- context [withRateLimitHandling_loop _ left (S attempt) ?w2] =>
        destruct (IH left (S attempt) w2) as (wj & Hrun & Hk & Hr & Hc & Ht);
        [ | exact Hpool | lia | lia | ]
    end.
    + intros i Hi. destruct (Hfail (S i)) as (e' & Hb' & He'); [lia|].
      exists e'. split; [|exact He'].
      rewrite <- Hb'. f_equal. simpl. lia.
    + exists wj. split.
      { rewrite Hrun. f_equal. lia. }
      rewrite Hk, Hr, Hc, Ht. simpl. rewrite <- !app_assoc. simpl.
      repeat split; lia.
Qed.

(** Transient failures on every call: whatever the number of keys, the
    executor makes the 5 calls of the inner budget with the one current
    key, waits [2^k * 1000 + jitter] after the k-th failure, does not
    rotate, and throws the last error as it is. *)
Theorem transient_everywhere_spends_one_budget
    (st : Storage) (request : Request) (modelName : string) (w : World) :
  let w0 := exec (loadKeys st) w in
  let key := currentKey (km (selected st w0)) in
  let c := rng w0 in
  let call := ECall key (req_model request) in
  configuredKeys st <> [] ->
  (forall n, exists e,
      backend key request n = inr e /\
      isRotationTrigger e = false /\ isHardQuotaZero e = false) ->
  exists e w',
    backend key request (calls w + 4) = inr e /\
    executeWithKeyRotation st (requestOp request) modelName w
    = (Throw e, w') /\
    trace w'
    = trace w ++
      [EClient key;
       call; EDelay (Math_pow2 1 * 1000 + rand c * 500);
       call; EDelay (Math_pow2 2 * 1000 + rand (S c) * 500);
       call; EDelay (Math_pow2 3 * 1000 + rand (S (S c)) * 500);
       call; EDelay (Math_pow2 4 * 1000 + rand (S (S (S c))) * 500);
       call] /\
    km w' = km (selected st w0).
Proof.
  intros w0 key c call Hne Hfail.
  pose proof (loadKeys_loaded st w Hne) as Hw0. fold w0 in Hw0.
  destruct (loadKeys_trace_calls st w) as [Htr Hcalls].
  fold w0 in Htr, Hcalls.
  set (w1 := log (EClient key) (selected st w0)).
  destruct (inner_budget_spent request {| apiKey := key |} false Hfail
              MAX_RETRIES 1 w1) as (e & w2 & Hb & Hrun & Ht & Hkm & Hr & Hc).
  { now right. }
  { unfold MAX_RETRIES; lia. }
  { reflexivity. }
  assert (Hrot : isRotationTrigger e = false).
  { destruct (Hfail (calls w1 + MAX_RETRIES - 1)%nat) as (e' & Hb' & Hr' & _).
    cbn [apiKey] in Hb. rewrite Hb in Hb'. now inversion Hb'. }
  assert (Hbody : attemptBody st (requestOp request) w0 = (Throw e, w2)).
  { rewrite (attemptBody_initialized st _ w0 (proj2 Hw0) Hne). exact Hrun. }
  exists e, w2. split.
  { rewrite <- Hb. cbn [apiKey]. f_equal. simpl. unfold MAX_RETRIES. lia. }
  split.
  { rewrite executeWithKeyRotation_unfold. fold w0.
    destruct (maxAttemptsOf (km w0)) as [|m] eqn:Hm.
    { rewrite maxAttemptsOf_max in Hm. lia. }
    rewrite (outer_propagate st _ (S m) m 0 w0 w2 e Hbody)
      by now rewrite Hrot.
    rewrite Hrot. now rewrite andb_false_r. }
  split.
  { rewrite Ht. unfold w1. simpl. rewrite Htr, <- app_assoc. reflexivity. }
  exact Hkm.
Qed.

(** Transient failures are absorbed: if the first [j <= 4] calls fail
    transiently and the next one succeeds, the executor returns that
    response; the caller sees no error, only [j] backoff waits and
    [j + 1] calls, all with the same key. *)
Theorem transient_failures_are_absorbed
    (st : Storage) (request : Request) (modelName : string) (w : World)
    (j : nat) (r : T) :
  let w0 := exec (loadKeys st) w in
  let key := currentKey (km (selected st w0)) in
  let call := ECall key (req_model request) in
  configuredKeys st <> [] ->
  (j < MAX_RETRIES)%nat ->
  (forall i, (i < j)%nat -> exists e,
      backend key request (calls w + i) = inr e /\
      isRotationTrigger e = false /\ isHardQuotaZero e = false) ->
  backend key request (calls w + j) = inl r ->
  exists w',
    executeWithKeyRotation st (requestOp request) modelName w
    = (Return r, w') /\
    trace w'
    = trace w ++ EClient key :: retriedLog call false 1 (rng w0) j ++ [call] /\
    networkCalls (trace w') = (networkCalls (trace w) + j + 1)%nat /\
    waits (trace w') = (waits (trace w) + j)%nat /\
    rotations (trace w') = rotations (trace w) /\
    km w' = km (selected st w0).
Proof.
  intros w0 key call Hne Hj Hfail Hok.
  pose proof (loadKeys_loaded st w Hne) as Hw0. fold w0 in Hw0.
  destruct (loadKeys_trace_calls st w) as [Htr Hcalls].
  fold w0 in Htr, Hcalls.
  set (w1 := log (EClient key) (selected st w0)).
  destruct (inner_retried_prefix {| apiKey := key |} request false j
              MAX_RETRIES 1 w1) as (wj & Hrun & Hk & Hr & Hc & Ht).
  { intros i Hi. cbn [apiKey].
    replace (calls w1) with (calls w) by (symmetry; exact Hcalls).
    now apply Hfail. }
  { now right. }
  { lia. }
  { lia. }
  cbn [apiKey] in Ht.
  assert (Hcall : generateContent {| apiKey := key |} request wj
                  = (Return r, called key (req_model request) wj)).
  { rewrite called_generateContent. cbn [apiKey]. rewrite Hc.
    replace (calls w1) with (calls w) by (symmetry; exact Hcalls).
    now rewrite Hok. }
  assert (Htrace : trace (called key (req_model request) wj)
                   = trace w ++ EClient key
                       :: retriedLog call false 1 (rng w0) j ++ [call]).
  { unfold called. cbn [trace]. rewrite Ht. unfold w1. simpl.
    rewrite Htr, <- !app_assoc. reflexivity. }
  exists (called key (req_model request) wj). split; [|split].
  - rewrite executeWithKeyRotation_unfold. fold w0.
    destruct (maxAttemptsOf (km w0)) as [|m] eqn:Hm.
    { rewrite maxAttemptsOf_max in Hm. lia. }
    apply outer_success.
    rewrite (attemptBody_initialized st _ w0 (proj2 Hw0) Hne).
    fold key. fold w1. unfold withRateLimitHandling, requestOp.
    rewrite Hrun.
    destruct (MAX_RETRIES - j)%nat as [|l] eqn:El; [lia|].
    now apply inner_success.
  - exact Htrace.
  - rewrite Htrace. unfold networkCalls, waits, rotations.
    rewrite !filter_app, !length_app. cbn [filter isCall isDelay isRotate].
    rewrite !filter_app, !length_app. cbn [filter isCall isDelay isRotate call].
    cbn [length].
    assert (L : forall a c, length (filter isCall (retriedLog call false a c j)) = j
                         /\ length (filter isDelay (retriedLog call false a c j)) = j
                         /\ length (filter isRotate (retriedLog call false a c j)) = 0%nat).
    { clear. induction j as [|j IH]; intros a c; simpl; [auto|].
      destruct (IH (S a) (S c)) as (I1 & I2 & I3). repeat split; lia. }
    destruct (L 1%nat (rng w0)) as (L1 & L2 & L3). rewrite L1, L2, L3.
    repeat split; try lia. exact Hk.
Qed.


(** ** [callModel] over the executor *)

Lemma callModel_unfold (st : Storage)
    (model systemInstruction userPrompt : string) (config : CallConfig)
    (w : World) :
  callModel st model systemInstruction userPrompt config w
  = if startsWith "gemini-" model then
      match executeWithKeyRotation st
              (requestOp (buildRequest model systemInstruction userPrompt
                            config)) model w with
      | (Return response, w') => (Return response, w')
      | (Throw error, w') =>
          if isQuotaExhausted error && String.eqb model "gemini-2.5-flash"
          then executeWithKeyRotation st
                 (requestOp (buildRequest fallbackModel systemInstruction
                               userPrompt config)) fallbackModel w'
          else (Throw error, w')
      end
    else (Throw (ErrorObj ("Unsupported model: " ++ model)), w).
Proof.
  unfold callModel, try_catch, requestOp.
  destruct (startsWith "gemini-" model); [|reflexivity].
  destruct (executeWithKeyRotation st _ model w) as [[r|e] w'];
    [reflexivity|].
  destruct (isQuotaExhausted e && String.eqb model "gemini-2.5-flash");
    reflexivity.
Qed.

(** When every call for 'gemini-2.5-flash' is rejected with a rotation
    trigger, the executor gives up after one attempt per key, and the
    error it gives up with is always one that [callModel] takes for quota
    exhaustion: the call is run once more for 'gemini-2.0-flash', and that
    run decides the outcome. *)
Theorem flash_outage_reaches_fallback
    (st : Storage) (systemInstruction userPrompt : string)
    (config : CallConfig) (w : World) :
  let primary :=
    buildRequest "gemini-2.5-flash" systemInstruction userPrompt config in
  let fallback :=
    buildRequest "gemini-2.0-flash" systemInstruction userPrompt config in
  configuredKeys st <> [] ->
  (forall key n, exists e,
      backend key primary n = inr e /\ isRotationTrigger e = true) ->
  exists e w1,
    executeWithKeyRotation st (requestOp primary) "gemini-2.5-flash" w
    = (Throw e, w1) /\
    isQuotaExhausted e = true /\
    outerAttempts (trace w1)
    = (outerAttempts (trace w) + length (configuredKeys st))%nat /\
    callModel st "gemini-2.5-flash" systemInstruction userPrompt config w
    = executeWithKeyRotation st (requestOp fallback) "gemini-2.0-flash" w1.
Proof.
  intros primary fallback Hne Hfail.
  pose proof (loadKeys_loaded st w Hne) as Hw0.
  destruct (loadKeys_trace_calls st w) as [Htr _].
  assert (Hrun : exists e w1,
             executeWithKeyRotation st (requestOp primary) "gemini-2.5-flash" w
             = (Throw e, w1) /\
             isQuotaExhausted e = true /\
             outerAttempts (trace w1)
             = (outerAttempts (trace w) + length (configuredKeys st))%nat).
  { rewrite executeWithKeyRotation_unfold, maxAttemptsOf_max, loadKeys_keys.
    destruct (Nat.eq_dec (length (configuredKeys st)) 1) as [H1|H1].
    - rewrite H1. cbn [Nat.max].
      destruct (outer_always_trigger_one st primary Hfail _ H1 Hw0)
        as (e' & w' & _ & Hloop & Ha & _).
      exists (exhaustedError (errorMessageLower e')), w'.
      split; [exact Hloop|]. split; [|rewrite Ha, Htr; lia].
      unfold isQuotaExhausted, exhaustedError, errorTextLower.
      rewrite toLowerCase_app.
      rewrite (includes_app_l "exhausted") by reflexivity. reflexivity.
    - assert (HN : (2 <= length (configuredKeys st))%nat).
      { destruct (configuredKeys st) as [|a [|b l]]; simpl in *;
          [congruence|lia|lia]. }
      replace (Nat.max 1 (length (configuredKeys st)))
        with (length (configuredKeys st)) by lia.
      destruct (outer_always_trigger_many st primary Hfail
                  (length (configuredKeys st)) (length (configuredKeys st)) 0
                  (exec (loadKeys st) w) HN Hw0) as (w' & Hloop & Ha & _).
      exists loopEndedError, w'. split; [exact Hloop|].
      split; [reflexivity|]. now rewrite Ha, Htr. }
  destruct Hrun as (e & w1 & Hrun & Hq & Ha).
  exists e, w1. split; [exact Hrun|]. split; [exact Hq|]. split; [exact Ha|].
  rewrite callModel_unfold. cbn [startsWith Ascii.eqb Bool.eqb andb].
  fold primary. rewrite Hrun, Hq. reflexivity.
Qed.

(** With no key configured, [callModel] makes no network call for any
    model, the flash model included: a 'gemini-' model gets the error that
    no API key was found (which is no quota exhaustion, so there is no
    fallback run), any other model the 'Unsupported model' error. *)
Theorem callModel_without_keys
    (st : Storage) (model systemInstruction userPrompt : string)
    (config : CallConfig) (w : World) :
  configuredKeys st = [] ->
  let run := callModel st model systemInstruction userPrompt config w in
  fst run
  = Throw (if startsWith "gemini-" model then noKeyError
           else ErrorObj ("Unsupported model: " ++ model)) /\
  trace (snd run) = trace w /\
  calls (snd run) = calls w /\
  rng (snd run) = rng w.
Proof.
  intros He run. unfold run. rewrite callModel_unfold.
  destruct (startsWith "gemini-" model); [|auto].
  assert (Hrun : forall operation modelName,
             executeWithKeyRotation st operation modelName w
             = (Throw noKeyError, selected st w)).
  { intros operation modelName.
    rewrite executeWithKeyRotation_unfold. unfold exec.
    rewrite (loadKeys_no_draw st w (or_intror He)). cbn [snd].
    fold (selected st w).
    replace (maxAttemptsOf (km (selected st w))) with 1%nat
      by (unfold maxAttemptsOf; simpl; now rewrite He).
    rewrite (outer_propagate st operation 1 0 0 (selected st w)
               (selected st w) noKeyError).
    - reflexivity.
    - rewrite attemptBody_empty by exact He.
      now rewrite selected_empty_idem.
    - reflexivity. }
  rewrite Hrun.
  replace (isQuotaExhausted noKeyError) with false by reflexivity.
  cbn [andb fst snd]. auto.
Qed.


(** ** The configuration read by [loadKeys] *)

Lemma filterKeys_strings (l : list string) :
  filterKeys (map JStr l) = Some (filter trimNonEmpty l).
Proof.
  induction l as [|s l IH]; simpl; [reflexivity|]. rewrite IH.
  destruct (trimNonEmpty s); reflexivity.
Qed.

Lemma filterKeys_nonString (elems : list JsonElem) :
  In JNonString elems -> filterKeys elems = None.
Proof.
  induction elems as [|x elems IH]; intros H; [contradiction|].
  destruct x as [s|]; simpl; [|reflexivity].
  destruct H as [H|H]; [discriminate|]. now rewrite (IH H).
Qed.

Lemma filterKeys_sound (elems : list JsonElem) (l : list string) :
  filterKeys elems = Some l ->
  Forall (fun k => trimNonEmpty k = true /\ In (JStr k) elems) l.
Proof.
  revert l. induction elems as [|x elems IH]; intros l H; simpl in H.
  - inversion H. constructor.
  - destruct x as [s|]; [|discriminate].
    destruct (filterKeys elems) as [l'|]; [|discriminate].
    specialize (IH l' eq_refl).
    assert (IH' : Forall (fun k => trimNonEmpty k = true
                                   /\ In (JStr k) (JStr s :: elems)) l').
    { eapply Forall_impl; [|exact IH]. intros k [H1 H2].
      split; [exact H1|now right]. }
    destruct (trimNonEmpty s) eqn:E; inversion H; subst; [|exact IH'].
    constructor; [|exact IH']. split; [exact E|now left].
Qed.

Lemma parsedKeys_nonblank (sk : StoredKeys) :
  Forall (fun k => trimNonEmpty k = true) (parsedKeys sk).
Proof.
  destruct sk as [| |elems]; simpl; try constructor.
  destruct (filterKeys elems) as [l|] eqn:E; [|constructor].
  eapply Forall_impl; [|apply (filterKeys_sound elems l E)].
  now intros k [H _].
Qed.

(** What [JSON.parse] and the filter make of the stored list: an array of
    strings gives its non-blank elements, in order (blank is what [trim]
    empties, the white space outside ASCII included); an array with any
    element that is not a string gives nothing at all (the [TypeError] of
    [k.trim()] is caught), like a value that is not an array or does not
    parse; and no blank key is ever kept. *)
Theorem parsedKeys_cases (sk : StoredKeys) :
  (forall l, sk = KeysArray (map JStr l) ->
             parsedKeys sk = filter trimNonEmpty l) /\
  (forall elems, sk = KeysArray elems -> In JNonString elems ->
                 parsedKeys sk = []) /\
  (sk = KeysUnparsable \/ sk = KeysNotArray -> parsedKeys sk = []) /\
  Forall (fun k => trimNonEmpty k = true) (parsedKeys sk).
Proof.
  split; [|split; [|split]].
  - intros l ->. unfold parsedKeys. now rewrite filterKeys_strings.
  - intros elems -> H. unfold parsedKeys.
    now rewrite (filterKeys_nonString elems H).
  - intros [-> | ->]; reflexivity.
  - apply parsedKeys_nonblank.
Qed.

Lemma trimNonEmpty_not_empty (s : string) :
  trimNonEmpty s = true -> s <> "".
Proof. destruct s; [discriminate|discriminate]. Qed.

Lemma truthy_keyList (o : option string) :
  truthy o = true -> exists k, o = Some k /\ k <> "" /\ keyList o = [k].
Proof.
  destruct o as [[|c s]|]; simpl; try discriminate.
  intros _. exists (String c s). repeat split. discriminate.
Qed.

(** Precedence of the three sources: the stored list wins whenever it
    yields a non-blank key; otherwise the legacy item, if it is a
    non-empty string; otherwise [process.env.API_KEY], if it is one;
    otherwise the pool is empty. The pool never holds an empty string. *)
Theorem configuredKeys_precedence (st : Storage) :
  let listed :=
    match gemini_api_keys st with
    | Some sk => parsedKeys sk
    | None => []
    end in
  (listed <> [] -> configuredKeys st = listed) /\
  (listed = [] -> truthy (gemini_api_key st) = true ->
   configuredKeys st = keyList (gemini_api_key st)) /\
  (listed = [] -> truthy (gemini_api_key st) = false ->
   truthy (env_API_KEY st) = true ->
   configuredKeys st = keyList (env_API_KEY st)) /\
  (listed = [] -> truthy (gemini_api_key st) = false ->
   truthy (env_API_KEY st) = false -> configuredKeys st = []) /\
  Forall (fun k => k <> "") (configuredKeys st).
Proof.
  intros listed. unfold configuredKeys. fold listed.
  assert (Hl : Forall (fun k => k <> "") listed).
  { unfold listed. destruct (gemini_api_keys st) as [sk|]; [|constructor].
    eapply Forall_impl; [|apply (parsedKeys_nonblank sk)].
    intros k. apply trimNonEmpty_not_empty. }
  clearbody listed.
  destruct listed as [|k0 ks];
    destruct (gemini_api_key st) as [[|c s]|];
    destruct (env_API_KEY st) as [[|c' s']|];
    cbn; repeat split; intros; try congruence; try discriminate;
    try exact Hl; repeat constructor; discriminate.
Qed.

(** Saving and reloading. After [handleSaveApiKeys gemini]: if some saved
    key is not blank, the pool is the saved list without its blank
    entries, in order (so a list of non-blank keys is read back as it
    is); if no key is saved, the pool is [process.env.API_KEY] alone, or
    empty; if every saved key is blank and the first is not the empty
    string, that blank first key alone is the pool (it comes back through
    the legacy item); and [loadKeys] installs exactly that list. *)
Theorem save_then_load_keys (gemini : list string) (st : Storage)
    (w : World) :
  let st' := handleSaveApiKeys gemini st in
  (filter trimNonEmpty gemini <> [] ->
   configuredKeys st' = filter trimNonEmpty gemini) /\
  (forallb trimNonEmpty gemini = true -> gemini <> [] ->
   configuredKeys st' = gemini) /\
  (gemini = [] ->
   configuredKeys st'
   = if truthy (env_API_KEY st) then keyList (env_API_KEY st) else []) /\
  (forall c k rest, gemini = String c k :: rest ->
     filter trimNonEmpty gemini = [] ->
     configuredKeys st' = [String c k]) /\
  keys (km (exec (loadKeys st') w)) = configuredKeys st'.
Proof.
  intros st'.
  assert (Hcfg : configuredKeys st'
                 = match filter trimNonEmpty gemini with
                   | [] => match gemini with
                           | String c k :: _ => [String c k]
                           | _ => if truthy (env_API_KEY st)
                                  then keyList (env_API_KEY st) else []
                           end
                   | l => l
                   end).
  { unfold st', configuredKeys, handleSaveApiKeys.
    cbn [gemini_api_keys gemini_api_key env_API_KEY parsedKeys].
    rewrite filterKeys_strings.
    destruct (filter trimNonEmpty gemini) as [|k0 ks]; [|reflexivity].
    destruct gemini as [|[|c k] rest];
      destruct (env_API_KEY st) as [[|c' s']|]; reflexivity. }
  split; [|split; [|split; [|split]]].
  - intros Hne. rewrite Hcfg.
    destruct (filter trimNonEmpty gemini); [congruence|reflexivity].
  - intros Hall Hne.
    assert (E : filter trimNonEmpty gemini = gemini).
    { clear -Hall. induction gemini as [|k l IH]; [reflexivity|].
      simpl in *. apply andb_true_iff in Hall as [H1 H2].
      now rewrite H1, (IH H2). }
    rewrite Hcfg, E. destruct gemini; [congruence|reflexivity].
  - intros Hg. rewrite Hcfg, Hg. reflexivity.
  - intros c k rest Hg Hf. rewrite Hcfg, Hf, Hg. reflexivity.
  - apply loadKeys_keys.
Qed.


(** ** Rotation order *)

Lemma rotate_iter (n : nat) (w : World) :
  (2 <= length (keys (km w)))%nat ->
  keys (km (Nat.iter n (exec rotate) w)) = keys (km w) /\
  currentIndex (km (Nat.iter n (exec rotate) w))
  = (currentIndex (km w) + n) mod length (keys (km w)) \/
  n = 0%nat.
Proof.
  intros HN. destruct n as [|n]; [now right|]. left.
  induction n as [|n IH].
  - simpl. unfold exec. rewrite rotate_spec.
    replace (length (keys (km w)) <=? 1)%nat with false
      by (symmetry; apply Nat.leb_gt; lia).
    split; reflexivity.
  - destruct IH as [IH1 IH2].
    change (Nat.iter (S (S n)) (exec rotate) w)
      with (exec rotate (Nat.iter (S n) (exec rotate) w)).
    unfold exec at 1 3. rewrite rotate_spec. rewrite IH1.
    replace (length (keys (km w)) <=? 1)%nat with false
      by (symmetry; apply Nat.leb_gt; lia).
    cbn [snd km log with_km advanceIndex keys currentIndex].
    split; [exact IH1|]. rewrite IH1, IH2.
    rewrite Nat.Div0.add_mod_idemp_l. f_equal. lia.
Qed.

(** [rotate] walks the pool cyclically: with [N >= 2] keys, [n] rotations
    move the index to [(currentIndex + n) mod N] and leave the keys alone;
    after [N] rotations an index that was within bounds is back where it
    started. *)
Theorem rotate_cycles (n : nat) (w : World) :
  let N := length (keys (km w)) in
  (2 <= N)%nat -> (1 <= n)%nat ->
  keys (km (Nat.iter n (exec rotate) w)) = keys (km w) /\
  currentIndex (km (Nat.iter n (exec rotate) w))
  = (currentIndex (km w) + n) mod N /\
  (indexInBounds (km w) ->
   currentIndex (km (Nat.iter N (exec rotate) w)) = currentIndex (km w)).
Proof.
  intros N HN Hn.
  destruct (rotate_iter n w HN) as [[H1 H2]|H]; [|lia].
  split; [exact H1|]. split; [exact H2|].
  intros Hb. destruct (rotate_iter N w HN) as [[_ H3]|H]; [|lia].
  rewrite H3. fold N.
  rewrite <- Nat.Div0.add_mod_idemp_r, Nat.Div0.mod_same, Nat.add_0_r.
  apply Nat.mod_small. apply Hb. lia.
Qed.


Lemma inner_clients (client : Client) (request : Request)
    (left attempt : nat) (w : World) (o : Outcome T) (w' : World) :
  withRateLimitHandling_loop (generateContent client request) left attempt w
  = (o, w') ->
  clientsOf (trace w') = clientsOf (trace w).
Proof.
  revert attempt w. induction left as [|left IH]; intros attempt w H.
  - simpl in H. unfold throw in H. now inversion H.
  - cbn [withRateLimitHandling_loop] in H. unfold try_catch in H.
    rewrite called_generateContent in H.
    set (w1 := called (apiKey client) (req_model request) w) in *.
    assert (H1 : clientsOf (trace w1) = clientsOf (trace w)).
    { unfold w1, called. cbn [trace]. rewrite clientsOf_app. simpl.
      apply app_nil_r. }
    destruct (backend (apiKey client) request (calls w)) as [r|e];
      [inversion H; subst; exact H1|].
    destruct (includes "limit: 0" (errorMessageLower e)
              || includes "quota exceeded for metric" (errorMessageLower e));
      [inversion H; subst; exact H1|].
    unfold bind at 1 in H. unfold getKM in H.
    destruct (isRotationTrigger e && (1 <? length (keys (km w1)))%nat);
      [inversion H; subst; exact H1|].
    destruct (attempt =? MAX_RETRIES)%nat.
    { destruct (isRotationTrigger e); inversion H; subst; exact H1. }
    unfold bind, Math_random, delay, emit in H.
    apply IH in H. rewrite H. unfold log. cbn [trace].
    rewrite clientsOf_app. simpl. rewrite app_nil_r. exact H1.
Qed.

Lemma rotation_order (K : list string) (i : nat) :
  (i < length K)%nat ->
  map (fun j => nth_error K ((i + j) mod length K)) (seq 0 (length K))
  = map Some (skipn i K ++ firstn i K).
Proof.
  intros Hi. apply nth_error_ext. intros n.
  rewrite !nth_error_map, nth_error_seq. cbn [Nat.add].
  destruct (Nat.ltb n (length K)) eqn:En.
  - apply Nat.ltb_lt in En. cbn [option_map].
    destruct (Nat.lt_ge_cases n (length K - i)) as [Hn|Hn].
    + rewrite nth_error_app1 by (rewrite length_skipn; lia).
      rewrite nth_error_skipn, Nat.mod_small by lia.
      destruct (nth_error K (i + n)) eqn:E; [reflexivity|].
      apply nth_error_None in E. lia.
    + rewrite nth_error_app2 by (rewrite length_skipn; lia).
      rewrite length_skipn, nth_error_firstn.
      replace (Nat.ltb (n - (length K - i)) i) with true
        by (symmetry; apply Nat.ltb_lt; lia).
      replace ((i + n) mod length K) with (n - (length K - i))%nat.
      * destruct (nth_error K (n - (length K - i))) eqn:E; [reflexivity|].
        apply nth_error_None in E. lia.
      * apply Nat.mod_unique with (q := 1%nat); lia.
  - apply Nat.ltb_ge in En. cbn [option_map].
    replace (nth_error (skipn i K ++ firstn i K) n) with (@None string);
      [reflexivity|].
    symmetry. apply nth_error_None.
    rewrite length_app, length_skipn, length_firstn. lia.
Qed.

Lemma clampIndex_index_lt (K : list string) (k : KeyManagerState) :
  K <> [] -> (currentIndex (clampIndex K k) < length K)%nat.
Proof.
  intros Hne. unfold clampIndex. cbn [currentIndex].
  assert (0 < length K)%nat by (destruct K; [congruence|simpl; lia]).
  destruct (0 <? length K)%nat eqn:E0;
    destruct (length K <=? currentIndex k)%nat eqn:E1; cbn [andb];
    try apply Nat.ltb_ge in E0; try apply Nat.leb_gt in E1; lia.
Qed.

Lemma clampIndex_index_id (K : list string) (k : KeyManagerState) :
  (currentIndex k < length K)%nat ->
  currentIndex (clampIndex K k) = currentIndex k.
Proof.
  intros Hlt. unfold clampIndex. cbn [currentIndex].
  replace (length K <=? currentIndex k)%nat with false
    by (symmetry; apply Nat.leb_gt; exact Hlt).
  now rewrite andb_false_r.
Qed.

Section EveryKeyOnce.

Variable st : Storage.
Variable request : Request.
Hypothesis always_trigger :
  forall key n, exists e,
    backend key request n = inr e /\ isRotationTrigger e = true.

Lemma attempt_always_trigger_client (w : World) :
  loaded st w -> configuredKeys st <> [] ->
  exists e' w2,
    attemptBody st (requestOp request) w = (Throw e', w2) /\
    isRotationTrigger e' = true /\
    km w2 = km (selected st w) /\
    clientsOf (trace w2)
    = clientsOf (trace w) ++ [currentKey (km (selected st w))].
Proof.
  intros [Hk Hi] Hne.
  rewrite (attemptBody_initialized st _ w Hi Hne).
  unfold withRateLimitHandling, requestOp.
  match goal with
  | |- context [withRateLimitHandling_loop ?c _ _ ?w1] =>
      destruct (inner_always_trigger request always_trigger
                  {| apiKey := currentKey (km (selected st w)) |}
                  MAX_RETRIES 1 w1) as (e' & w2 & Hrun & Hrot);
      [unfold MAX_RETRIES; lia | reflexivity |]
  end.
  exists e', w2. split; [exact Hrun|]. split; [exact Hrot|].
  destruct (inner_preserves _ _ _ _ _ _ _ Hrun) as (P1 & _).
  apply inner_clients in Hrun. split; [exact P1|].
  rewrite Hrun. unfold log, selected, with_km. cbn [trace].
  now rewrite clientsOf_app.
Qed.

Lemma outer_every_key (maxAttempts left attempt : nat) (w : World) :
  let N := length (configuredKeys st) in
  let i := currentIndex (km (selected st w)) in
  (2 <= N)%nat -> loaded st w ->
  exists w',
    executeWithKeyRotation_loop st (requestOp request) maxAttempts left
      attempt w = (Throw loopEndedError, w') /\
    clientsOf (trace w')
    = clientsOf (trace w)
      ++ map (fun j => nth_error (configuredKeys st) ((i + j) mod N))
           (seq 0 left) /\
    ((1 <= left)%nat -> currentIndex (km w') = (i + left) mod N).
Proof.
  intros N i HN. unfold i. clear i. revert attempt w.
  induction left as [|left IH]; intros attempt w Hw.
  - exists w. simpl. unfold throw. rewrite app_nil_r.
    repeat split. lia.
  - assert (Hne : configuredKeys st <> []).
    { unfold N in HN. destruct (configuredKeys st); [simpl in HN; lia|].
      discriminate. }
    destruct (attempt_always_trigger_client w Hw Hne)
      as (e' & w2 & Hrun & Hrot & Hkm & Hcl).
    set (i := currentIndex (km (selected st w))) in *.
    assert (Hi : (i < N)%nat)
      by (apply (clampIndex_index_lt _ (km w) Hne)).
    assert (Hk : (1 < length (keys (km w2)))%nat).
    { rewrite Hkm. cbn. fold N. lia. }
    rewrite (outer_rotate st _ maxAttempts left attempt w w2 e'
               Hrun Hrot Hk).
    assert (Hw3 : loaded st (rotated w2)).
    { split; cbn; rewrite Hkm; [reflexivity|exact (proj2 Hw)]. }
    assert (Hi3 : currentIndex (km (selected st (rotated w2)))
                  = ((i + 1) mod N)%nat).
    { unfold selected, rotated, log, with_km. cbn [km].
      rewrite clampIndex_index_id; rewrite Hkm;
        cbn [advanceIndex currentIndex keys selected with_km km clampIndex];
        fold N; fold i.
      - reflexivity.
      - apply Nat.mod_upper_bound. lia. }
    destruct (IH (S attempt) (rotated w2) Hw3) as (w' & Hloop & Hc & Hidx).
    rewrite Hi3 in Hc, Hidx.
    exists w'. split; [exact Hloop|]. split.
    + rewrite Hc. unfold rotated, log. cbn [trace with_km].
      rewrite !clientsOf_app. simpl. rewrite !app_nil_r, Hcl.
      rewrite <- app_assoc. f_equal. cbn [app]. f_equal.
      * unfold currentKey. rewrite Nat.add_0_r, Nat.mod_small by exact Hi.
        reflexivity.
      * rewrite <- seq_shift, map_map. apply map_ext. intros j.
        rewrite Nat.Div0.add_mod_idemp_l. do 2 f_equal. lia.
    + intros _. destruct left as [|left'].
      * simpl in Hloop. unfold throw in Hloop. inversion Hloop; subst.
        cbn. rewrite Hkm. reflexivity.
      * rewrite Hidx by lia. rewrite Nat.Div0.add_mod_idemp_l.
        f_equal. lia.
Qed.

(** With two keys or more and a rotation trigger on every call, the
    executor tries every key exactly once, in pool order starting at the
    current one and wrapping around; it then fails with the error of the
    end of the loop, and the index is back on the key it started with. *)
Theorem every_key_tried_once (modelName : string) (w : World) :
  let K := configuredKeys st in
  let w0 := exec (loadKeys st) w in
  let i := currentIndex (km (selected st w0)) in
  (2 <= length K)%nat ->
  exists w',
    executeWithKeyRotation st (requestOp request) modelName w
    = (Throw loopEndedError, w') /\
    clientsOf (trace w')
    = clientsOf (trace w) ++ map Some (skipn i K ++ firstn i K) /\
    currentIndex (km w') = i /\
    (i < length K)%nat.
Proof.
  intros K w0 i HN.
  assert (Hne : configuredKeys st <> []).
  { unfold K in HN. destruct (configuredKeys st); [simpl in HN; lia|].
    discriminate. }
  pose proof (loadKeys_loaded st w Hne) as Hw0. fold w0 in Hw0.
  destruct (loadKeys_trace_calls st w) as [Htr _]. fold w0 in Htr.
  assert (Hi : (i < length K)%nat)
    by (apply (clampIndex_index_lt _ (km w0) Hne)).
  destruct (outer_every_key (length K) (length K) 0 w0 HN Hw0)
    as (w' & Hloop & Hc & Hidx).
  exists w'. split; [|split; [|split]].
  - rewrite executeWithKeyRotation_unfold. fold w0.
    replace (maxAttemptsOf (km w0)) with (length K)
      by (rewrite maxAttemptsOf_max; destruct Hw0 as [-> _]; fold K; lia).
    exact Hloop.
  - rewrite Hc, Htr. f_equal. apply rotation_order. exact Hi.
  - rewrite Hidx by lia. fold K. fold i.
    rewrite <- Nat.Div0.add_mod_idemp_r, Nat.Div0.mod_same, Nat.add_0_r.
    now apply Nat.mod_small.
  - exact Hi.
Qed.

End EveryKeyOnce.


(** ** Reloading and the credentials in use *)

(** A reload by an initialized manager takes the keys of the
    configuration, keeps [currentIndex] if it is still within the new
    list and sets it to 0 otherwise (it is not moved to the last key),
    and does nothing else: no random draw, no call, nothing logged. *)
Theorem reload_keeps_or_resets_index (st : Storage) (w : World) :
  initialized (km w) = true ->
  let w' := exec (loadKeys st) w in
  keys (km w') = configuredKeys st /\
  ((currentIndex (km w) < length (configuredKeys st))%nat ->
   currentIndex (km w') = currentIndex (km w)) /\
  ((length (configuredKeys st) <= currentIndex (km w))%nat ->
   configuredKeys st <> [] -> currentIndex (km w') = 0%nat) /\
  (configuredKeys st = [] -> currentIndex (km w') = currentIndex (km w)) /\
  initialized (km w') = true /\
  rng w' = rng w /\ calls w' = calls w /\ trace w' = trace w.
Proof.
  intros Hi w'. unfold w', exec.
  rewrite (loadKeys_no_draw st w (or_introl Hi)). cbn [snd].
  unfold with_km, clampIndex. cbn [km keys currentIndex initialized rng
                                   calls trace].
  split; [reflexivity|]. split; [|split; [|split]].
  - intros Hlt.
    replace (length (configuredKeys st) <=? currentIndex (km w))%nat
      with false by (symmetry; apply Nat.leb_gt; exact Hlt).
    now rewrite andb_false_r.
  - intros Hge Hne.
    replace (length (configuredKeys st) <=? currentIndex (km w))%nat
      with true by (symmetry; apply Nat.leb_le; exact Hge).
    replace (0 <? length (configuredKeys st))%nat with true; [reflexivity|].
    symmetry. apply Nat.ltb_lt.
    destruct (configuredKeys st); [congruence|simpl; lia].
  - intros ->. reflexivity.
  - auto.
Qed.

Lemma callKeysOf_app (a b : list Event) :
  callKeysOf (a ++ b) = callKeysOf a ++ callKeysOf b.
Proof. unfold callKeysOf. apply flat_map_app. Qed.

Lemma inner_callKeys (client : Client) (request : Request)
    (left attempt : nat) (w : World) (o : Outcome T) (w' : World) :
  withRateLimitHandling_loop (generateContent client request) left attempt w
  = (o, w') ->
  exists ds, callKeysOf (trace w') = callKeysOf (trace w) ++ ds /\
             Forall (eq (apiKey client)) ds.
Proof.
  revert attempt w. induction left as [|left IH]; intros attempt w H.
  - simpl in H. unfold throw in H. inversion H; subst.
    exists []. rewrite app_nil_r. auto.
  - cbn [withRateLimitHandling_loop] in H. unfold try_catch in H.
    rewrite called_generateContent in H.
    set (w1 := called (apiKey client) (req_model request) w) in *.
    assert (H1 : exists ds, callKeysOf (trace w1) = callKeysOf (trace w) ++ ds /\
                            Forall (eq (apiKey client)) ds).
    { exists [apiKey client]. unfold w1, called. cbn [trace].
      rewrite callKeysOf_app. simpl. auto. }
    destruct (backend (apiKey client) request (calls w)) as [r|e];
      [inversion H; subst; exact H1|].
    destruct (includes "limit: 0" (errorMessageLower e)
              || includes "quota exceeded for metric" (errorMessageLower e));
      [inversion H; subst; exact H1|].
    unfold bind at 1 in H. unfold getKM in H.
    destruct (isRotationTrigger e && (1 <? length (keys (km w1)))%nat);
      [inversion H; subst; exact H1|].
    destruct (attempt =? MAX_RETRIES)%nat.
    { destruct (isRotationTrigger e); inversion H; subst; exact H1. }
    unfold bind, Math_random, delay, emit in H.
    apply IH in H. destruct H as (ds & D1 & D2).
    unfold log, w1, called in D1. cbn [trace] in D1.
    rewrite !callKeysOf_app in D1. simpl in D1. rewrite app_nil_r in D1.
    exists (apiKey client :: ds). split.
    + rewrite D1, <- app_assoc. reflexivity.
    + constructor; [reflexivity|exact D2].
Qed.

Section ConfiguredKeysOnly.

Hypothesis rand_in_range : forall n, in_unit_interval (rand n).

Lemma currentKey_configured (st : Storage) (w : World) :
  configuredKeys st <> [] ->
  isConfiguredKey st (currentKey (km (exec (loadKeys st) w))).
Proof.
  intros Hne. unfold isConfiguredKey, currentKey.
  pose proof (loadKeys_index_in_bounds st w (rand_in_range _)) as Hb.
  unfold indexInBounds in Hb. rewrite loadKeys_keys in *.
  assert (Hpos : (0 < length (configuredKeys st))%nat)
    by (destruct (configuredKeys st); [congruence|simpl; lia]).
  specialize (Hb Hpos).
  destruct (nth_error (configuredKeys st)
              (currentIndex (km (exec (loadKeys st) w)))) as [k|] eqn:E.
  - exists k. split; [reflexivity|]. eapply nth_error_In, E.
  - apply nth_error_None in E. lia.
Qed.

Lemma attemptBody_keys (st : Storage) (request : Request)
    (w : World) (o : Outcome T) (w2 : World) :
  attemptBody st (requestOp request) w = (o, w2) ->
  exists cs ds,
    clientsOf (trace w2) = clientsOf (trace w) ++ cs /\
    callKeysOf (trace w2) = callKeysOf (trace w) ++ ds /\
    Forall (isConfiguredKey st) cs /\ Forall (isConfiguredKey st) ds.
Proof.
  rewrite attemptBody_cases.
  destruct (loadKeys_trace_calls st w) as [Htr _].
  destruct (length (configuredKeys st) =? 0)%nat eqn:E.
  - intros H. inversion H; subst. exists [], []. rewrite Htr, !app_nil_r.
    auto.
  - assert (Hne : configuredKeys st <> []).
    { intros C. rewrite C in E. discriminate. }
    pose proof (currentKey_configured st w Hne) as Hkey.
    unfold withRateLimitHandling, requestOp. intros H.
    destruct (inner_callKeys _ _ _ _ _ _ _ H) as (ds & D1 & D2).
    apply inner_clients in H.
    exists [currentKey (km (exec (loadKeys st) w))], ds.
    unfold log in H, D1. cbn [trace] in H, D1.
    rewrite clientsOf_app in H. rewrite callKeysOf_app in D1.
    simpl in H, D1. rewrite app_nil_r in D1. rewrite Htr in H, D1.
    split; [exact H|]. split; [exact D1|].
    split; [constructor; [exact Hkey|constructor]|].
    eapply Forall_impl; [|exact D2]. cbn [apiKey]. now intros a <-.
Qed.

Lemma outer_keys (st : Storage) (request : Request)
    (maxAttempts left attempt : nat) (w : World) (o : Outcome T)
    (w' : World) :
  executeWithKeyRotation_loop st (requestOp request) maxAttempts left attempt w
  = (o, w') ->
  exists cs ds,
    clientsOf (trace w') = clientsOf (trace w) ++ cs /\
    callKeysOf (trace w') = callKeysOf (trace w) ++ ds /\
    Forall (isConfiguredKey st) cs /\ Forall (isConfiguredKey st) ds.
Proof.
  revert attempt w. induction left as [|left IH]; intros attempt w H.
  - simpl in H. unfold throw in H. inversion H; subst.
    exists [], []. rewrite !app_nil_r. auto.
  - destruct (attemptBody st (requestOp request) w) as [o1 w2] eqn:Hbody.
    destruct (attemptBody_keys st request w o1 w2 Hbody)
      as (cs & ds & C1 & D1 & C2 & D2).
    destruct o1 as [r|e].
    + rewrite (outer_success st _ maxAttempts left attempt w w2 r Hbody) in H.
      inversion H; subst. now exists cs, ds.
    + destruct (isRotationTrigger e && (1 <? length (keys (km w2)))%nat)
        eqn:Hrot.
      * apply andb_true_iff in Hrot as [Hrot Hk]. apply Nat.ltb_lt in Hk.
        rewrite (outer_rotate st _ maxAttempts left attempt w w2 e Hbody
                   Hrot Hk) in H.
        apply IH in H. destruct H as (cs' & ds' & C1' & D1' & C2' & D2').
        unfold rotated, log in C1', D1'. cbn [trace with_km] in C1', D1'.
        rewrite !clientsOf_app in C1'. rewrite !callKeysOf_app in D1'.
        simpl in C1', D1'. rewrite !app_nil_r in C1'.
        rewrite !app_nil_r in D1'.
        exists (cs ++ cs'), (ds ++ ds'). split; [|split; [|split]].
        -- rewrite C1', C1, <- app_assoc. reflexivity.
        -- rewrite D1', D1, <- app_assoc. reflexivity.
        -- apply Forall_app. now split.
        -- apply Forall_app. now split.
      * rewrite (outer_propagate st _ maxAttempts left attempt w w2 e Hbody
                   Hrot) in H.
        inversion H; subst. now exists cs, ds.
Qed.

(** [getCurrentKey] on a non-empty pool returns one of the configured
    keys, never [undefined]; and in a run of the executor every client is
    bound to a configured key and every network call is made with one. *)
Theorem only_configured_keys_are_used
    (st : Storage) (request : Request) (modelName : string) (w : World) :
  configuredKeys st <> [] ->
  let w' := exec (executeWithKeyRotation st (requestOp request) modelName) w in
  (exists k, result (getCurrentKey st) w = Return (Some k) /\
             In k (configuredKeys st)) /\
  exists cs ds,
    clientsOf (trace w') = clientsOf (trace w) ++ cs /\
    callKeysOf (trace w') = callKeysOf (trace w) ++ ds /\
    Forall (isConfiguredKey st) cs /\ Forall (isConfiguredKey st) ds.
Proof.
  intros Hne w'. split.
  - destruct (currentKey_configured st w Hne) as (k & Hk & Hin).
    exists k. split; [|exact Hin].
    unfold result, getCurrentKey, bind.
    rewrite (loadKeys_returns st w). unfold getKM.
    rewrite loadKeys_keys.
    replace (length (configuredKeys st) =? 0)%nat with false
      by (destruct (configuredKeys st); [congruence|reflexivity]).
    unfold ret. cbn [fst]. rewrite <- Hk. unfold currentKey.
    now rewrite loadKeys_keys.
  - unfold w', exec. rewrite executeWithKeyRotation_unfold.
    destruct (loadKeys_trace_calls st w) as [Htr _].
    match goal with
    | |- context [snd ?run] => destruct run as [o w2] eqn:Hrun
    end.
    apply outer_keys in Hrun. rewrite Htr in Hrun. exact Hrun.
Qed.

End ConfiguredKeysOnly.

End GeminiService.

(** * The theorems at sample inputs *)

Lemma half_in_unit_interval (n : nat) : in_unit_interval (Sample.half n).
Proof. split; [discriminate|reflexivity]. Qed.

(** C1 as stated fails: with two keys, a hard-quota-zero failure on the
    first call is followed by a rotation, a 10000 ms wait and a call with
    the other key (which fails alike and is followed by the same). *)
Lemma hardQuotaZero_rotates_with_two_keys :
  let e := ErrorObj Sample.zeroQuota in
  let run :=
    executeWithKeyRotation string Sample.half Sample.twoKeys
      (requestOp string (Sample.alwaysFails Sample.zeroQuota)
         (Sample.request "gemini-2.5-pro"))
      "gemini-2.5-pro" Sample.start in
  isHardQuotaZero e = true /\
  trace (snd run)
  = [EClient (Some "KEY-B"); ECall (Some "KEY-B") "gemini-2.5-pro";
     ERotate; EDelay 10000;
     EClient (Some "KEY-A"); ECall (Some "KEY-A") "gemini-2.5-pro";
     ERotate; EDelay 10000] /\
  ~ (networkCalls (trace (snd run)) = 1%nat /\
     rotations (trace (snd run)) = 0%nat /\
     waits (trace (snd run)) = 0%nat).
Proof.
  split; [vm_compute; reflexivity|]. split; [vm_compute; reflexivity|].
  intros (H & _). vm_compute in H. discriminate H.
Qed.

Lemma hardQuotaZero_first_occurrence_witness :
  let run :=
    executeWithKeyRotation string Sample.half Sample.oneKey
      (requestOp string (Sample.alwaysFails Sample.zeroQuota)
         (Sample.request "gemini-2.5-pro"))
      "gemini-2.5-pro" Sample.start in
  configuredKeys Sample.oneKey <> [] /\
  isHardQuotaZero (ErrorObj Sample.zeroQuota) = true /\
  fst run
  = Throw (ErrorObj
      "All Gemini API Keys exhausted (Quota/Suspended). Last error: api quota exceeded (limit: 0) or model unavailable: quota exceeded for metric: generate_requests, limit: 0") /\
  trace (snd run)
  = [EClient (Some "KEY-A"); ECall (Some "KEY-A") "gemini-2.5-pro"].
Proof.
  assert (Hne : configuredKeys Sample.oneKey <> []) by discriminate.
  assert (Hq : isHardQuotaZero (ErrorObj Sample.zeroQuota) = true)
    by (vm_compute; reflexivity).
  destruct (hardQuotaZero_first_occurrence string Sample.half
              (Sample.alwaysFails Sample.zeroQuota) Sample.oneKey
              (Sample.request "gemini-2.5-pro") "gemini-2.5-pro" Sample.start
              (ErrorObj Sample.zeroQuota) Hne (fun _ => eq_refl) Hq)
    as (_ & H1 & _ & _ & _ & _).
  intros run. split; [exact Hne|]. split; [exact Hq|].
  unfold run. rewrite (H1 eq_refl). split; vm_compute; reflexivity.
Defined.

(** C2 at a failing input: two keys, every call rejected with a rate-limit
    error. The executor makes its two attempts and then throws the error of
    the end of the loop, whose message does not carry the text of the last
    error, in either case. *)
Theorem exhausted_message_without_last_error :
  let run :=
    executeWithKeyRotation string Sample.half Sample.twoKeys
      (requestOp string (Sample.alwaysFails Sample.rateLimited)
         (Sample.request "gemini-2.5-pro"))
      "gemini-2.5-pro" Sample.start in
  let message :=
    "All Gemini API Keys exhausted (Rotation loop ended without success)." in
  fst run = Throw (ErrorObj message) /\
  outerAttempts (trace (snd run)) = 2%nat /\
  includes Sample.rateLimited message = false /\
  includes (toLowerCase Sample.rateLimited) (toLowerCase message) = false.
Proof.
  repeat split; vm_compute; reflexivity.
Qed.

(** The sibling path of C2: with one key the message does name the last
    error, in lower case. *)
Lemma exhausted_message_with_last_error_one_key :
  fst (executeWithKeyRotation string Sample.half Sample.oneKey
         (requestOp string (Sample.alwaysFails Sample.rateLimited)
            (Sample.request "gemini-2.5-pro"))
         "gemini-2.5-pro" Sample.start)
  = Throw (ErrorObj
      "All Gemini API Keys exhausted (Quota/Suspended). Last error: quota exceeded or key suspended: 429 too many requests").
Proof. vm_compute. reflexivity. Qed.

Lemma rotation_trigger_everywhere_witness :
  (1 <= length (configuredKeys Sample.threeKeys))%nat /\
  maxAttemptsOf
    (km (exec (loadKeys Sample.half Sample.threeKeys) Sample.start)) = 3%nat /\
  exists e w',
    executeWithKeyRotation string Sample.half Sample.threeKeys
      (requestOp string (Sample.alwaysFails Sample.rateLimited)
         (Sample.request "gemini-2.5-pro"))
      "gemini-2.5-pro" Sample.start = (Throw e, w') /\
    outerAttempts (trace w') = 3%nat.
Proof.
  assert (HN : (1 <= length (configuredKeys Sample.threeKeys))%nat)
    by (simpl; lia).
  assert (Hfail : forall (key : option string) (n : nat), exists e,
             Sample.alwaysFails Sample.rateLimited key
               (Sample.request "gemini-2.5-pro") n = inr e /\
             isRotationTrigger e = true).
  { intros key n. exists (ErrorObj Sample.rateLimited).
    split; [reflexivity|vm_compute; reflexivity]. }
  destruct (rotation_trigger_everywhere_makes_N_attempts string Sample.half
              (Sample.alwaysFails Sample.rateLimited) Sample.threeKeys
              (Sample.request "gemini-2.5-pro") "gemini-2.5-pro" Sample.start
              HN Hfail)
    as (Hmax & e & w' & Hrun & Hcount).
  split; [exact HN|]. split; [exact Hmax|].
  exists e, w'. split; [exact Hrun|exact Hcount].
Defined.

Lemma single_key_spends_inner_budget_witness :
  configuredKeys Sample.oneKey = ["KEY-A"] /\
  exists e w',
    executeWithKeyRotation string Sample.half Sample.oneKey
      (requestOp string (Sample.alwaysFails Sample.rateLimited)
         (Sample.request "gemini-2.5-pro"))
      "gemini-2.5-pro" Sample.start
    = (Throw (exhaustedError (errorMessageLower (suspendedError e))), w') /\
    networkCalls (trace w') = 5%nat /\
    rotations (trace w') = 0%nat /\
    currentIndex (km w') = 0%nat.
Proof.
  split; [reflexivity|].
  assert (Hfail : forall n : nat, exists e,
             Sample.alwaysFails Sample.rateLimited (Some "KEY-A")
               (Sample.request "gemini-2.5-pro") n = inr e /\
             isRotationTrigger e = true /\ isHardQuotaZero e = false).
  { intros n. exists (ErrorObj Sample.rateLimited).
    split; [reflexivity|split; vm_compute; reflexivity]. }
  destruct (single_key_spends_inner_budget string Sample.half
              (Sample.alwaysFails Sample.rateLimited) Sample.oneKey
              (Sample.request "gemini-2.5-pro") "gemini-2.5-pro" Sample.start
              "KEY-A" eq_refl half_in_unit_interval Hfail)
    as (e & w' & _ & Hrun & _ & _ & _ & Hidx & Hrot & Hcalls).
  exists e, w'. split; [exact Hrun|].
  split; [exact Hcalls|]. split; [exact Hrot|exact Hidx].
Defined.


Lemma empty_pool_witness :
  configuredKeys Sample.noKeys = [] /\
  executeWithKeyRotation string Sample.half Sample.noKeys
    (requestOp string (Sample.alwaysFails Sample.rateLimited)
       (Sample.request "gemini-2.5-pro"))
    "gemini-2.5-pro" Sample.start
  = (Throw noKeyError, selected Sample.noKeys Sample.start).
Proof.
  split; [reflexivity|].
  apply (empty_pool_is_configuration_error string Sample.half Sample.noKeys
           Sample.start eq_refl).
Defined.

Lemma loadKeys_idempotent_witness :
  in_unit_interval (Sample.half (rng Sample.start)) /\
  exec (loadKeys Sample.half Sample.threeKeys)
    (exec (loadKeys Sample.half Sample.threeKeys) Sample.start)
  = exec (loadKeys Sample.half Sample.threeKeys) Sample.start.
Proof.
  split; [apply half_in_unit_interval|].
  apply (loadKeys_idempotent Sample.half Sample.threeKeys Sample.start
           (half_in_unit_interval _)).
Defined.

Lemma flash_fallback_witness :
  let ops := Sample.request in
  isQuotaExhausted
    (ErrorObj "All Gemini API Keys exhausted (Quota/Suspended). Last error: quota exceeded or key suspended: 429 resource_exhausted")
  = true /\
  fst (callModel string Sample.half Sample.flashDown Sample.oneKey
         "gemini-2.5-flash" "You are a researcher." "Write a title."
         Sample.plain Sample.start)
  = Return "A Title".
Proof.
  intros ops.
  set (e := ErrorObj "All Gemini API Keys exhausted (Quota/Suspended). Last error: quota exceeded or key suspended: 429 resource_exhausted").
  set (run := executeWithKeyRotation string Sample.half Sample.oneKey
                (requestOp string Sample.flashDown
                   (buildRequest "gemini-2.5-flash" "You are a researcher."
                      "Write a title." Sample.plain))
                "gemini-2.5-flash" Sample.start).
  assert (Hq : isQuotaExhausted e = true) by (vm_compute; reflexivity).
  assert (Hrun : run = (Throw e, snd run)) by (vm_compute; reflexivity).
  split; [exact Hq|].
  destruct (flash_quota_failure_falls_back_once string Sample.half
              Sample.flashDown Sample.oneKey "You are a researcher."
              "Write a title." Sample.plain Sample.start (snd run) e
              Hrun Hq) as (E & _ & _).
  rewrite E. vm_compute. reflexivity.
Defined.

Lemma index_invariant_witness :
  (forall n, in_unit_interval (Sample.half n)) /\
  indexInBounds
    (km (runPoolOps Sample.half
           [OpLoadKeys Sample.threeKeys; OpRotate; OpRotate;
            OpGetCurrentKey Sample.oneKey; OpRotate;
            OpLoadKeys Sample.noKeys; OpLoadKeys Sample.twoKeys]
           Sample.start)).
Proof.
  split; [exact half_in_unit_interval|].
  destruct (index_invariant_and_rotate Sample.half half_in_unit_interval)
    as (_ & _ & H & _).
  apply H. reflexivity.
Defined.

Lemma unsupported_model_witness :
  startsWith "gemini-" "gpt-4o" = false /\
  callModel string Sample.half (Sample.alwaysFails Sample.rateLimited)
    Sample.twoKeys "gpt-4o" "You are a researcher." "Write a title."
    Sample.plain Sample.start
  = (Throw (ErrorObj "Unsupported model: gpt-4o"), Sample.start).
Proof.
  split; [reflexivity|].
  apply (unsupported_model_fails_at_once string Sample.half
           (Sample.alwaysFails Sample.rateLimited) Sample.twoKeys "gpt-4o"
           "You are a researcher." "Write a title." Sample.plain Sample.start).
  reflexivity.
Defined.

(** * The further properties at sample inputs *)

Lemma executor_waits_in_range_witness :
  (forall n, in_unit_interval (Sample.half n)) /\
  exists ds,
    delaysOf
      (trace (exec (executeWithKeyRotation string Sample.half Sample.twoKeys
                      (requestOp string (Sample.failsFirst 3 Sample.networkDown)
                         (Sample.request "gemini-2.5-pro"))
                      "gemini-2.5-pro") Sample.start))
    = delaysOf (trace Sample.start) ++ ds /\
    Forall waitInRange ds.
Proof.
  split; [exact half_in_unit_interval|].
  apply (executor_waits_in_range string Sample.half
           (Sample.failsFirst 3 Sample.networkDown) half_in_unit_interval
           Sample.twoKeys (Sample.request "gemini-2.5-pro") "gemini-2.5-pro"
           Sample.start).
Defined.

Lemma executor_keeps_pool_invariant_witness :
  (forall n, in_unit_interval (Sample.half n)) /\
  keys (km (exec (executeWithKeyRotation string Sample.half Sample.threeKeys
                    (requestOp string (Sample.alwaysFails Sample.rateLimited)
                       (Sample.request "gemini-2.5-pro"))
                    "gemini-2.5-pro") Sample.start))
  = ["KEY-A"; "KEY-B"; "KEY-C"].
Proof.
  split; [exact half_in_unit_interval|].
  apply (executor_keeps_pool_invariant string Sample.half
           (Sample.alwaysFails Sample.rateLimited) half_in_unit_interval
           Sample.threeKeys (Sample.request "gemini-2.5-pro") "gemini-2.5-pro"
           Sample.start).
Defined.

Lemma first_call_success_witness :
  configuredKeys Sample.twoKeys <> [] /\
  exists w',
    executeWithKeyRotation string Sample.half Sample.twoKeys
      (requestOp string Sample.alwaysOk (Sample.request "gemini-2.5-pro"))
      "gemini-2.5-pro" Sample.start = (Return "A Title", w') /\
    trace w' = [EClient (Some "KEY-B"); ECall (Some "KEY-B") "gemini-2.5-pro"].
Proof.
  assert (Hne : configuredKeys Sample.twoKeys <> []) by discriminate.
  split; [exact Hne|].
  destruct (first_call_success string Sample.half Sample.alwaysOk
              Sample.twoKeys (Sample.request "gemini-2.5-pro")
              "gemini-2.5-pro" Sample.start "A Title" Hne eq_refl)
    as (w' & Hrun & Htr & _).
  exists w'. split; [exact Hrun|]. rewrite Htr. vm_compute. reflexivity.
Defined.

Lemma failover_to_next_key_witness :
  (2 <= length (configuredKeys Sample.twoKeys))%nat /\
  isRotationTrigger (ErrorObj "429 Too Many Requests") = true /\
  exists w',
    executeWithKeyRotation string Sample.half Sample.twoKeys
      (requestOp string (Sample.onlyKey "KEY-A")
         (Sample.request "gemini-2.5-pro"))
      "gemini-2.5-pro" Sample.start = (Return "A Title", w') /\
    trace w'
    = [EClient (Some "KEY-B"); ECall (Some "KEY-B") "gemini-2.5-pro";
       ERotate; EDelay 10000;
       EClient (Some "KEY-A"); ECall (Some "KEY-A") "gemini-2.5-pro"] /\
    currentIndex (km w') = 0%nat.
Proof.
  assert (HN : (2 <= length (configuredKeys Sample.twoKeys))%nat)
    by (vm_compute; lia).
  assert (Hrot : isRotationTrigger (ErrorObj "429 Too Many Requests") = true)
    by (vm_compute; reflexivity).
  split; [exact HN|]. split; [exact Hrot|].
  destruct (failover_to_next_key string Sample.half (Sample.onlyKey "KEY-A")
              Sample.twoKeys (Sample.request "gemini-2.5-pro")
              "gemini-2.5-pro" Sample.start
              (ErrorObj "429 Too Many Requests") "A Title"
              HN eq_refl Hrot eq_refl)
    as (w' & Hrun & Htr & Hidx).
  exists w'. split; [exact Hrun|]. split.
  - rewrite Htr. vm_compute. reflexivity.
  - rewrite Hidx. vm_compute. reflexivity.
Defined.

Lemma transient_everywhere_witness :
  configuredKeys Sample.twoKeys <> [] /\
  exists e w',
    executeWithKeyRotation string Sample.half Sample.twoKeys
      (requestOp string (Sample.alwaysFails Sample.networkDown)
         (Sample.request "gemini-2.5-pro"))
      "gemini-2.5-pro" Sample.start = (Throw e, w') /\
    e = ErrorObj Sample.networkDown /\
    networkCalls (trace w') = 5%nat /\
    rotations (trace w') = 0%nat.
Proof.
  assert (Hne : configuredKeys Sample.twoKeys <> []) by discriminate.
  assert (Hfail : forall n : nat, exists e,
             Sample.alwaysFails Sample.networkDown
               (currentKey
                  (km (selected Sample.twoKeys
                         (exec (loadKeys Sample.half Sample.twoKeys)
                            Sample.start))))
               (Sample.request "gemini-2.5-pro") n = inr e /\
             isRotationTrigger e = false /\ isHardQuotaZero e = false).
  { intros n. exists (ErrorObj Sample.networkDown).
    split; [reflexivity|split; vm_compute; reflexivity]. }
  split; [exact Hne|].
  destruct (transient_everywhere_spends_one_budget string Sample.half
              (Sample.alwaysFails Sample.networkDown) Sample.twoKeys
              (Sample.request "gemini-2.5-pro") "gemini-2.5-pro" Sample.start
              Hne Hfail)
    as (e & w' & Hb & Hrun & Htr & _).
  exists e, w'. split; [exact Hrun|]. split.
  - unfold Sample.alwaysFails in Hb. now inversion Hb.
  - rewrite Htr. split; vm_compute; reflexivity.
Defined.

Lemma transient_failures_are_absorbed_witness :
  configuredKeys Sample.oneKey <> [] /\
  exists w',
    executeWithKeyRotation string Sample.half Sample.oneKey
      (requestOp string (Sample.failsFirst 2 Sample.networkDown)
         (Sample.request "gemini-2.5-pro"))
      "gemini-2.5-pro" Sample.start = (Return "A Title", w') /\
    networkCalls (trace w') = 3%nat /\
    waits (trace w') = 2%nat.
Proof.
  assert (Hne : configuredKeys Sample.oneKey <> []) by discriminate.
  assert (Hfail : forall i : nat, (i < 2)%nat -> exists e,
             Sample.failsFirst 2 Sample.networkDown
               (currentKey
                  (km (selected Sample.oneKey
                         (exec (loadKeys Sample.half Sample.oneKey)
                            Sample.start))))
               (Sample.request "gemini-2.5-pro") (calls Sample.start + i)
             = inr e /\
             isRotationTrigger e = false /\ isHardQuotaZero e = false).
  { intros i Hi. exists (ErrorObj Sample.networkDown).
    split; [|split; vm_compute; reflexivity].
    unfold Sample.failsFirst. cbn [calls Sample.start Nat.add].
    replace (i <? 2)%nat with true by (symmetry; apply Nat.ltb_lt; exact Hi).
    reflexivity. }
  split; [exact Hne|].
  destruct (transient_failures_are_absorbed string Sample.half
              (Sample.failsFirst 2 Sample.networkDown) Sample.oneKey
              (Sample.request "gemini-2.5-pro") "gemini-2.5-pro" Sample.start
              2 "A Title" Hne ltac:(unfold MAX_RETRIES; lia) Hfail eq_refl)
    as (w' & Hrun & _ & Hcalls & Hwaits & _).
  exists w'. split; [exact Hrun|]. split; [exact Hcalls|exact Hwaits].
Defined.

Lemma flash_outage_reaches_fallback_witness :
  configuredKeys Sample.twoKeys <> [] /\
  fst (callModel string Sample.half Sample.flashDown Sample.twoKeys
         "gemini-2.5-flash" "You are a researcher." "Write a title."
         Sample.plain Sample.start)
  = Return "A Title".
Proof.
  assert (Hne : configuredKeys Sample.twoKeys <> []) by discriminate.
  assert (Hfail : forall (key : option string) (n : nat), exists e,
             Sample.flashDown key
               (buildRequest "gemini-2.5-flash" "You are a researcher."
                  "Write a title." Sample.plain) n = inr e /\
             isRotationTrigger e = true).
  { intros key n. exists (ErrorObj "429 RESOURCE_EXHAUSTED").
    split; [reflexivity|vm_compute; reflexivity]. }
  split; [exact Hne|].
  destruct (flash_outage_reaches_fallback string Sample.half Sample.flashDown
              Sample.twoKeys "You are a researcher." "Write a title."
              Sample.plain Sample.start Hne Hfail)
    as (e & w1 & Hrun & _ & _ & Hcall).
  rewrite Hcall.
  assert (E : w1 = snd (executeWithKeyRotation string Sample.half
                          Sample.twoKeys
                          (requestOp string Sample.flashDown
                             (buildRequest "gemini-2.5-flash"
                                "You are a researcher." "Write a title."
                                Sample.plain))
                          "gemini-2.5-flash" Sample.start))
    by now rewrite Hrun.
  rewrite E. vm_compute. reflexivity.
Defined.

Lemma callModel_without_keys_witness :
  configuredKeys Sample.noKeys = [] /\
  fst (callModel string Sample.half Sample.alwaysOk Sample.noKeys
         "gemini-2.5-flash" "You are a researcher." "Write a title."
         Sample.plain Sample.start)
  = Throw noKeyError.
Proof.
  split; [reflexivity|].
  apply (callModel_without_keys string Sample.half Sample.alwaysOk
           Sample.noKeys "gemini-2.5-flash" "You are a researcher."
           "Write a title." Sample.plain Sample.start eq_refl).
Defined.

Lemma rotate_cycles_witness :
  let w := exec (loadKeys Sample.half Sample.threeKeys) Sample.start in
  (2 <= length (keys (km w)))%nat /\
  currentIndex (km (Nat.iter 2 (exec rotate) w)) = 0%nat /\
  currentIndex (km (Nat.iter 3 (exec rotate) w)) = currentIndex (km w).
Proof.
  intros w.
  assert (HN : (2 <= length (keys (km w)))%nat) by (vm_compute; lia).
  split; [exact HN|].
  destruct (rotate_cycles 2 w HN ltac:(lia)) as (_ & H2 & _).
  destruct (rotate_cycles 3 w HN ltac:(lia)) as (_ & _ & H3).
  split.
  - rewrite H2. vm_compute. reflexivity.
  - apply H3. unfold indexInBounds. vm_compute. lia.
Defined.

Lemma every_key_tried_once_witness :
  (2 <= length (configuredKeys Sample.threeKeys))%nat /\
  exists w',
    executeWithKeyRotation string Sample.half Sample.threeKeys
      (requestOp string (Sample.alwaysFails Sample.rateLimited)
         (Sample.request "gemini-2.5-pro"))
      "gemini-2.5-pro" Sample.start = (Throw loopEndedError, w') /\
    clientsOf (trace w') = [Some "KEY-B"; Some "KEY-C"; Some "KEY-A"] /\
    currentIndex (km w') = 1%nat.
Proof.
  assert (HN : (2 <= length (configuredKeys Sample.threeKeys))%nat)
    by (vm_compute; lia).
  assert (Hfail : forall (key : option string) (n : nat), exists e,
             Sample.alwaysFails Sample.rateLimited key
               (Sample.request "gemini-2.5-pro") n = inr e /\
             isRotationTrigger e = true).
  { intros key n. exists (ErrorObj Sample.rateLimited).
    split; [reflexivity|vm_compute; reflexivity]. }
  split; [exact HN|].
  destruct (every_key_tried_once string Sample.half
              (Sample.alwaysFails Sample.rateLimited) Sample.threeKeys
              (Sample.request "gemini-2.5-pro") Hfail "gemini-2.5-pro"
              Sample.start HN)
    as (w' & Hrun & Hcl & Hidx & _).
  exists w'. split; [exact Hrun|]. split.
  - rewrite Hcl. vm_compute. reflexivity.
  - rewrite Hidx. vm_compute. reflexivity.
Defined.

Lemma reload_keeps_or_resets_index_witness :
  let w := exec (loadKeys Sample.half Sample.threeKeys) Sample.start in
  initialized (km w) = true /\
  currentIndex (km w) = 1%nat /\
  currentIndex (km (exec (loadKeys Sample.half Sample.oneKey) w)) = 0%nat /\
  currentIndex (km (exec (loadKeys Sample.half Sample.twoKeys) w)) = 1%nat.
Proof.
  intros w.
  assert (Hi : initialized (km w) = true) by (vm_compute; reflexivity).
  split; [exact Hi|]. split; [vm_compute; reflexivity|].
  destruct (reload_keeps_or_resets_index Sample.half Sample.oneKey w Hi)
    as (_ & _ & H0 & _).
  destruct (reload_keeps_or_resets_index Sample.half Sample.twoKeys w Hi)
    as (_ & H1 & _).
  split.
  - apply H0; [vm_compute; lia|discriminate].
  - rewrite H1; [vm_compute; reflexivity|vm_compute; lia].
Defined.

Lemma only_configured_keys_are_used_witness :
  (forall n, in_unit_interval (Sample.half n)) /\
  configuredKeys Sample.threeKeys <> [] /\
  exists k,
    result (getCurrentKey Sample.half Sample.threeKeys) Sample.start
    = Return (Some k) /\
    In k (configuredKeys Sample.threeKeys).
Proof.
  assert (Hne : configuredKeys Sample.threeKeys <> []) by discriminate.
  split; [exact half_in_unit_interval|]. split; [exact Hne|].
  apply (only_configured_keys_are_used string Sample.half
           (Sample.onlyKey "KEY-A") half_in_unit_interval Sample.threeKeys
           (Sample.request "gemini-2.5-pro") "gemini-2.5-pro" Sample.start
           Hne).
Defined.

(** White space beyond ASCII is white space for [trim]; a letter after it
    is not. *)
Lemma trim_knows_unicode_white_space :
  trimNonEmpty Sample.nbsp = false /\
  trimNonEmpty Sample.wideBlank = false /\
  trimNonEmpty (Sample.nbsp ++ "k")%string = true /\
  trimNonEmpty (String (ascii_of_nat 195) (String (ascii_of_nat 160) ""))
  = true.
Proof. repeat split; vm_compute; reflexivity. Qed.

Lemma parsedKeys_cases_witness :
  parsedKeys (KeysArray [JStr Sample.nbsp; JStr "KEY-B"; JStr " "])
  = ["KEY-B"].
Proof.
  destruct (parsedKeys_cases
              (KeysArray (map JStr [Sample.nbsp; "KEY-B"; " "])))
    as (H & _).
  change (KeysArray [JStr Sample.nbsp; JStr "KEY-B"; JStr " "])
    with (KeysArray (map JStr [Sample.nbsp; "KEY-B"; " "])).
  rewrite (H _ eq_refl). vm_compute. reflexivity.
Defined.

Lemma configuredKeys_precedence_witness :
  configuredKeys Sample.blankListWithLegacy = ["LEG"].
Proof.
  destruct (configuredKeys_precedence Sample.blankListWithLegacy)
    as (_ & H & _).
  rewrite H; [reflexivity| vm_compute; reflexivity | reflexivity].
Defined.

Lemma save_then_load_keys_witness :
  configuredKeys
    (handleSaveApiKeys [Sample.nbsp; "KEY-B"; "KEY-C"] Sample.noKeys)
  = ["KEY-B"; "KEY-C"].
Proof.
  destruct (save_then_load_keys Sample.half [Sample.nbsp; "KEY-B"; "KEY-C"]
              Sample.noKeys Sample.start) as (H & _).
  rewrite H; [vm_compute; reflexivity|].
  vm_compute. discriminate.
Defined.
